(** * dcos-terraform statuspage: a shallow embedding of [main.go]

    The program polls the GitHub API for the repositories of an
    organisation, sorts them into one bucket per provider, asks Jenkins for
    the build state of every tracked branch of every repository, renders a
    markdown document and serves its HTML conversion.

    Go strings and byte slices are sequences of bytes: they are modelled
    by [string] (a list of 8-bit [ascii]).  The global [repos] map is a
    [gmap string (list Repository)].  Calls to the outside world (the
    GitHub listing, the Jenkins text endpoint, the goroutine scheduler, the
    body renderer of the markdown library) are explicit oracles. *)

From Stdlib Require Import Ascii String NArith ZArith List Permutation Sorted Bool Lia.
From stdpp Require Import base tactics option list strings gmap sorting.

Local Open Scope string_scope.
Local Open Scope list_scope.

(** ** Bytes and string constants *)

(** Characters that a Rocq string literal cannot hold directly. *)
Definition nl : string := String (ascii_of_nat 10) EmptyString.
Definition dq : string := String (ascii_of_nat 34) EmptyString.

Definition newline : ascii := ascii_of_nat 10.

(** ** net/url: [QueryEscape]

    [url.QueryEscape s] is [escape(s, encodeQueryComponent)]: letters and
    digits and the four marks [-_.~] are kept, a space becomes [+], every
    other byte [c] becomes [%] followed by [upperhex[c>>4]] and
    [upperhex[c&15]]. *)

Definition in_range (lo hi : N) (c : ascii) : bool :=
  (lo <=? N_of_ascii c)%N && (N_of_ascii c <=? hi)%N.

Definition shouldEscape (c : ascii) : bool :=
  if in_range 97 122 c || in_range 65 90 c || in_range 48 57 c then false
  else
    match c with
    | "-"%char | "_"%char | "."%char | "~"%char => false
    | _ => true
    end.

Definition upperhex (n : N) : ascii :=
  match String.get (N.to_nat n) "0123456789ABCDEF" with
  | Some c => c
  | None => "0"%char
  end.

Fixpoint escape (s : string) : string :=
  match s with
  | EmptyString => EmptyString
  | String c rest =>
      if shouldEscape c then
        if Ascii.eqb c " "%char then String "+"%char (escape rest)
        else
          String "%"%char
            (String (upperhex (N.shiftr (N_of_ascii c) 4))
               (String (upperhex (N.land (N_of_ascii c) 15)) (escape rest)))
      else String c (escape rest)
  end.

Definition QueryEscape (s : string) : string := escape s.

(** Every byte of [s] passes the test [ok]. *)
Fixpoint all_bytes (ok : ascii -> bool) (s : string) : bool :=
  match s with
  | EmptyString => true
  | String c s' => ok c && all_bytes ok s'
  end.

(** The bytes [QueryEscape] keeps. *)
Definition unreserved (c : ascii) : bool := negb (shouldEscape c).

(** A decoder for the escaped form: [%XY] is the byte with the hexadecimal
    digits [X] and [Y], [+] is a space, another byte is itself. *)
Definition unhex (c : ascii) : option N :=
  if in_range 48 57 c then Some (N_of_ascii c - 48)%N
  else if in_range 65 70 c then Some (N_of_ascii c - 55)%N
  else if in_range 97 102 c then Some (N_of_ascii c - 87)%N
  else None.

Fixpoint unescape (s : string) : option string :=
  match s with
  | EmptyString => Some EmptyString
  | String c rest =>
      if Ascii.eqb c "%"%char then
        match rest with
        | String h (String l rest') =>
            match unhex h, unhex l with
            | Some a, Some b =>
                option_map (String (ascii_of_N (16 * a + b))) (unescape rest')
            | _, _ => None
            end
        | _ => None
        end
      else if Ascii.eqb c "+"%char then option_map (String " "%char) (unescape rest)
      else option_map (String c) (unescape rest)
  end.

(** ** Badges and CI results *)

Record Badge := mkBadge { Result : Z; Image : string }.

Record CiResult := mkCiResult {
  BranchesIndex : nat;
  BranchHtmlDoubleEncoded : string;
  Build : Badge
}.

Definition STATIC_DIR : string := "/static/".
Definition STATIC_CSS_FILE : string := "bootstrap.min.css".
Definition StatusOK : Z := 200.

(** The five states a badge can show, as the spec names them. *)
Inductive BuildState := NotRun | Passing | Running | Failing | Aborted.

Definition state_code (s : BuildState) : Z :=
  match s with
  | NotRun => 0 | Passing => 1 | Running => 2 | Failing => 3 | Aborted => 4
  end.

Definition state_image (s : BuildState) : string :=
  match s with
  | NotRun => STATIC_DIR +:+ "images/0-build-notrun.svg"
  | Passing => STATIC_DIR +:+ "images/1-build-passing.svg"
  | Running => STATIC_DIR +:+ "images/2-build-running.svg"
  | Failing => STATIC_DIR +:+ "images/3-build-failing.svg"
  | Aborted => STATIC_DIR +:+ "images/4-build-aborted.svg"
  end.

Definition state_badge (s : BuildState) : Badge :=
  {| Result := state_code s; Image := state_image s |}.

(** [new(Badge)]: the zero value. *)
Definition new_Badge : Badge := {| Result := 0; Image := EmptyString |}.

(** Lines 202-224 of [main.go]: the badge is first set to not-run when the
    status is not 200, and then the [switch] on the body assigns it again
    in every one of its five arms. *)
Definition classify (statusCode : Z) (body : string) : Badge :=
  let badge := new_Badge in
  let badge :=
    if negb (statusCode =? StatusOK)%Z then
      {| Result := 0; Image := STATIC_DIR +:+ "images/0-build-notrun.svg" |}
    else badge in
  if String.eqb body "Success" then
    {| Result := 1; Image := STATIC_DIR +:+ "images/1-build-passing.svg" |}
  else if String.eqb body "In progress" then
    {| Result := 2; Image := STATIC_DIR +:+ "images/2-build-running.svg" |}
  else if String.eqb body "Failed" then
    {| Result := 3; Image := STATIC_DIR +:+ "images/3-build-failing.svg" |}
  else if String.eqb body "Aborted" then
    {| Result := 4; Image := STATIC_DIR +:+ "images/4-build-aborted.svg" |}
  else
    {| Result := 0; Image := STATIC_DIR +:+ "images/0-build-notrun.svg" |}.

(** What the spec asks of the classification: a status other than 200 is
    not-run whatever the body says. *)
Definition classify_spec (statusCode : Z) (body : string) : BuildState :=
  if negb (statusCode =? StatusOK)%Z then NotRun
  else if String.eqb body "Success" then Passing
  else if String.eqb body "In progress" then Running
  else if String.eqb body "Failed" then Failing
  else if String.eqb body "Aborted" then Aborted
  else NotRun.

(** The parts of the file name of a badge image. *)
Definition state_label (s : BuildState) : string :=
  match s with
  | NotRun => "notrun" | Passing => "passing" | Running => "running"
  | Failing => "failing" | Aborted => "aborted"
  end.

Definition digit (z : Z) : string :=
  String (ascii_of_N (48 + Z.to_N z)) EmptyString.

(** ** regexp: the fragment of Go's syntax the bucket pattern lives in

    [fetchRepositorys] compiles ["^(" + prefix + ")(" + key + ").*$"] and
    calls [MatchString].  The model parses the pattern text: literal ASCII
    bytes, groups, [^] and [$] (no flags: begin and end of the text), [.*]
    and a star after any atom.  Everything else ([\ [ ] { } + ? |], a
    byte above 127, a lone [.], a stacked star, unbalanced parentheses) is
    not compiled: [regexp_Compile] answers [None].  Matching is by
    derivatives; [b] says that the position is the beginning of the text
    and [e] that it is its end. *)

Inductive regex :=
| REmpty
| REps
| RChar (c : ascii)
| RAnyNotNL
| RBeginText
| REndText
| RCat (r1 r2 : regex)
| RAlt (r1 r2 : regex)
| RStar (r : regex).

Inductive char_kind :=
| KOpen | KClose | KBegin | KEnd | KDot | KStar | KMeta | KLit.

(** How the parser reads a byte of the pattern; [KMeta] is what the model
    does not compile. *)
Definition kind_of (c : ascii) : char_kind :=
  match c with
  | "("%char => KOpen
  | ")"%char => KClose
  | "^"%char => KBegin
  | "$"%char => KEnd
  | "."%char => KDot
  | "*"%char => KStar
  | "\"%char | "["%char | "]"%char | "{"%char | "}"%char
  | "+"%char | "?"%char | "|"%char => KMeta
  | _ => if (N_of_ascii c <? 128)%N then KLit else KMeta
  end.

Definition starts_with_star (s : string) : bool :=
  match s with
  | EmptyString => false
  | String c _ => match kind_of c with KStar => true | _ => false end
  end.

(** [parse_seq fuel s] reads atoms up to the end of [s] or to a closing
    parenthesis, which it leaves in the rest it returns. *)
Fixpoint parse_seq (fuel : nat) (s : string) : option (regex * string) :=
  match fuel with
  | O => None
  | S fuel' =>
      match s with
      | EmptyString => Some (REps, EmptyString)
      | String c rest =>
          let atom :=
            match kind_of c with
            | KClose => None
            | KOpen =>
                match parse_seq fuel' rest with
                | Some (r, String c' rest') =>
                    match kind_of c' with
                    | KClose => Some (r, rest')
                    | _ => None
                    end
                | _ => None
                end
            | KBegin => Some (RBeginText, rest)
            | KEnd => Some (REndText, rest)
            | KDot => if starts_with_star rest then Some (RAnyNotNL, rest) else None
            | KLit => Some (RChar c, rest)
            | KStar | KMeta => None
            end in
          match kind_of c, atom with
          | KClose, _ => Some (REps, s)
          | _, None => None
          | _, Some (a, rest1) =>
              let starred :=
                match rest1 with
                | String c1 rest2 =>
                    match kind_of c1 with
                    | KStar =>
                        if starts_with_star rest2 then None
                        else Some (RStar a, rest2)
                    | _ => Some (a, rest1)
                    end
                | EmptyString => Some (a, rest1)
                end in
              match starred with
              | None => None
              | Some (a', rest2) =>
                  match parse_seq fuel' rest2 with
                  | Some (r, rest3) => Some (RCat a' r, rest3)
                  | None => None
                  end
              end
          end
      end
  end.

Definition regexp_Compile (pat : string) : option regex :=
  match parse_seq (S (String.length pat)) pat with
  | Some (r, EmptyString) => Some r
  | _ => None
  end.

Fixpoint nullable (b e : bool) (r : regex) : bool :=
  match r with
  | REmpty | RChar _ | RAnyNotNL => false
  | REps | RStar _ => true
  | RBeginText => b
  | REndText => e
  | RCat r1 r2 => nullable b e r1 && nullable b e r2
  | RAlt r1 r2 => nullable b e r1 || nullable b e r2
  end.

Fixpoint deriv (b : bool) (c : ascii) (r : regex) : regex :=
  match r with
  | REmpty | REps | RBeginText | REndText => REmpty
  | RChar c' => if Ascii.eqb c c' then REps else REmpty
  | RAnyNotNL => if Ascii.eqb c newline then REmpty else REps
  | RCat r1 r2 =>
      if nullable b false r1
      then RAlt (RCat (deriv b c r1) r2) (deriv b c r2)
      else RCat (deriv b c r1) r2
  | RAlt r1 r2 => RAlt (deriv b c r1) (deriv b c r2)
  | RStar r1 => RCat (deriv b c r1) (RStar r1)
  end.

(** Some prefix of [s] matches [r]. *)
Fixpoint match_here (b : bool) (r : regex) (s : string) : bool :=
  match s with
  | EmptyString => nullable b true r
  | String c rest => nullable b false r || match_here false (deriv b c r) rest
  end.

(** Some substring of [s] matches [r], starting here or later. *)
Fixpoint match_from (b : bool) (r : regex) (s : string) : bool :=
  match_here b r s ||
  match s with
  | EmptyString => false
  | String _ rest => match_from false r rest
  end.

Definition MatchString (r : regex) (s : string) : bool := match_from true r s.

Definition is_empty (s : string) : bool :=
  match s with
  | EmptyString => true
  | String _ _ => false
  end.

(** What the expressions mean.  [Matches r b w e]: the expression [r]
    matches the piece [w] of a text, where [b] says that the piece begins
    at the beginning of the text and [e] that it ends at its end. *)
Inductive Matches : regex -> bool -> string -> bool -> Prop :=
| Matches_eps b e : Matches REps b EmptyString e
| Matches_char c b e : Matches (RChar c) b (String c EmptyString) e
| Matches_any c b e : c <> newline -> Matches RAnyNotNL b (String c EmptyString) e
| Matches_begin e : Matches RBeginText true EmptyString e
| Matches_end b : Matches REndText b EmptyString true
| Matches_cat r1 r2 b w1 w2 e :
    Matches r1 b w1 (e && is_empty w2) ->
    Matches r2 (b && is_empty w1) w2 e ->
    Matches (RCat r1 r2) b (w1 +:+ w2) e
| Matches_alt_l r1 r2 b w e : Matches r1 b w e -> Matches (RAlt r1 r2) b w e
| Matches_alt_r r1 r2 b w e : Matches r2 b w e -> Matches (RAlt r1 r2) b w e
| Matches_star_nil r b e : Matches (RStar r) b EmptyString e
| Matches_star_step r b c w1 w2 e :
    Matches r b (String c w1) (e && is_empty w2) ->
    Matches (RStar r) false w2 e ->
    Matches (RStar r) b (String c w1 +:+ w2) e.

(** The expression of a string of literal bytes, as the parser builds it. *)
Fixpoint lits (s : string) : regex :=
  match s with
  | EmptyString => REps
  | String c s' => RCat (RChar c) (lits s')
  end.

(** The expression the code compiles for a literal prefix and key. *)
Definition bucket_regex (prefix key : string) : regex :=
  RCat RBeginText
    (RCat (lits prefix)
       (RCat (lits key) (RCat (RStar RAnyNotNL) (RCat REndText REps)))).

(** The bytes the parser reads as themselves. *)
Definition is_literal (c : ascii) : bool :=
  match kind_of c with
  | KLit => true
  | _ => false
  end.

Fixpoint literal (s : string) : bool :=
  match s with
  | EmptyString => true
  | String c s' => is_literal c && literal s'
  end.

Fixpoint no_newline (s : string) : bool :=
  match s with
  | EmptyString => true
  | String c s' => negb (Ascii.eqb c newline) && no_newline s'
  end.


(** ** The GitHub side: repositories, options, the global state *)

(** The fields of [github.Repository] the program reads.  The API fills
    [Name] and [Archived] for every repository it lists, so they are plain
    values here and not the pointers of the Go struct. *)
Record Repository := mkRepository {
  ID : Z;
  Name : string;
  OwnerLogin : string;
  Archived : bool
}.

Record OptionsT := mkOptions {
  GitHubOrg : string;
  GitHubRepoPrefix : string
}.

(** The package-level variables of [main.go]. *)
Record State := mkState {
  markdownCache : string;
  provider : list string;
  branches : list string;
  repos : gmap string (list Repository)
}.

Definition set_repos (m : gmap string (list Repository)) (st : State) : State :=
  {| markdownCache := markdownCache st; provider := provider st;
     branches := branches st; repos := m |}.

Definition set_markdownCache (md : string) (st : State) : State :=
  {| markdownCache := md; provider := provider st;
     branches := branches st; repos := repos st |}.

(** [repos[p]]: a missing key reads as the nil slice. *)
Definition bucket (m : gmap string (list Repository)) (p : string) : list Repository :=
  default [] (m !! p).

(** What [main] appends to [provider] and [branches] at start-up. *)
Definition main_provider : list string := ["aws"; "azurerm"; "gcp"; "null"; "template"].
Definition main_branches : list string := ["support/0.2.x"; "support/0.1.x"].

Definition default_Options (org : string) : OptionsT :=
  {| GitHubOrg := org; GitHubRepoPrefix := "terraform-" |}.

Definition main_State : State :=
  {| markdownCache := EmptyString; provider := main_provider;
     branches := main_branches; repos := ∅ |}.

(** ** [fetchRepositorys] *)

(** One answer of [client.Repositories.ListByOrg]: an error (transport,
    a status that is not 2xx, or a body that does not decode), or a page of
    repositories with [resp.NextPage]. *)
Inductive ListResult :=
| ListErr
| ListOk (page_repos : list Repository) (NextPage : nat).

(** The API as an oracle: the answer to the [n]-th call of a run, asked for
    a page of an organisation. *)
Definition GitHubAPI := nat -> string -> nat -> ListResult.

Inductive PagesOutcome :=
| PagesDone (allRepos : list Repository) (calls : list nat)
| PagesFatal (calls : list nat)
| PagesOutOfFuel.

(** The pagination loop, lines 154-163.  [calls] logs the page asked for
    by every call made so far. *)
Fixpoint listAllPages (fuel : nat) (api : GitHubAPI) (org : string)
    (page : nat) (calls : list nat) (allRepos : list Repository) : PagesOutcome :=
  match fuel with
  | O => PagesOutOfFuel
  | S fuel' =>
      match api (length calls) org page with
      | ListErr => PagesFatal (calls ++ [page])
      | ListOk rs next =>
          if (next =? 0)%nat then PagesDone (allRepos ++ rs) (calls ++ [page])
          else listAllPages fuel' api org next (calls ++ [page]) (allRepos ++ rs)
      end
  end.

Definition bucket_pattern (prefix key : string) : string :=
  "^(" +:+ prefix +:+ ")(" +:+ key +:+ ").*$".

(** The inner loop, lines 167-176, for the provider key [i].  [None]: the
    pattern is not one the model compiles (for a pattern Go rejects, the
    code drops the error and calls [MatchString] on the nil result). *)
Fixpoint fill_bucket (prefix i : string) (allRepos : list Repository)
    (m : gmap string (list Repository)) : option (gmap string (list Repository)) :=
  match allRepos with
  | [] => Some m
  | repo :: rest =>
      if negb (Archived repo) then
        match regexp_Compile (bucket_pattern prefix i) with
        | None => None
        | Some r =>
            if MatchString r (Name repo)
            then fill_bucket prefix i rest (<[i := bucket m i ++ [repo]]> m)
            else fill_bucket prefix i rest m
        end
      else fill_bucket prefix i rest m
  end.

(** The outer loop, lines 165-177. *)
Fixpoint fill_buckets (prefix : string) (keys : list string)
    (allRepos : list Repository) (m : gmap string (list Repository))
    : option (gmap string (list Repository)) :=
  match keys with
  | [] => Some m
  | i :: keys' =>
      match fill_bucket prefix i allRepos (<[i := []]> m) with
      | None => None
      | Some m' => fill_buckets prefix keys' allRepos m'
      end
  end.

Inductive FetchOutcome :=
| FetchDone (st : State) (calls : list nat)
| FetchFatal (st : State) (calls : list nat)
| FetchBadPattern (calls : list nat)
| FetchOutOfFuel.

Definition fetchRepositorys (fuel : nat) (api : GitHubAPI) (opts : OptionsT)
    (org : string) (st : State) : FetchOutcome :=
  match listAllPages fuel api org 0 [] [] with
  | PagesOutOfFuel => FetchOutOfFuel
  | PagesFatal calls => FetchFatal st calls
  | PagesDone allRepos calls =>
      match fill_buckets (GitHubRepoPrefix opts) (provider st) allRepos (repos st) with
      | None => FetchBadPattern calls
      | Some m => FetchDone (set_repos m st) calls
      end
  end.

(** The bucket the spec describes for a key: the repositories that are not
    archived and whose name the pattern matches, in the order listed. *)
Definition matching (r : regex) (allRepos : list Repository) : list Repository :=
  List.filter (fun repo => negb (Archived repo) && MatchString r (Name repo)) allRepos.

(** A run of the pagination loop told from the side of the API: beginning
    with the call number [n] for the page [page], the calls ask for the
    pages [calls]; they end with a last page ([true]), having listed
    [allRepos], or with the first error ([false]). *)
Inductive Listing (api : GitHubAPI) (org : string)
  : nat -> nat -> list nat -> list Repository -> bool -> Prop :=
| Listing_error n page :
    api n org page = ListErr ->
    Listing api org n page [page] [] false
| Listing_last n page rs :
    api n org page = ListOk rs 0 ->
    Listing api org n page [page] rs true
| Listing_next n page rs next calls allRepos ok :
    api n org page = ListOk rs next ->
    next <> 0%nat ->
    Listing api org (S n) next calls allRepos ok ->
    Listing api org n page (page :: calls) (rs ++ allRepos) ok.

(** The compiled pattern of a provider key. *)
Definition compiled (prefix key : string) : option regex :=
  regexp_Compile (bucket_pattern prefix key).

(** ** [getJenkinsBuildStatusBadge]: one goroutine per branch

    Every goroutine of lines 190-233 is cut into its four actions: the HTTP
    exchange with the classification of the answer, the [append] to the
    shared slice, the comparison of its length with [sliceSize], and the
    send on [done].  The caller waits on [done] and then returns the shared
    slice.  A schedule (a list of thread names) picks who moves next; a
    thread that cannot move stays where it is.  The [append] is taken as
    one indivisible action. *)

Inductive HttpResult :=
| HttpErr
| HttpOk (StatusCode : Z) (body : string).

(** Jenkins as an oracle from the URL asked for to the answer. *)
Definition Jenkins := string -> HttpResult.

Definition jenkins_text_url (repoName branchHtmlDoubleEncoded : string) : string :=
  "https://jenkins-terraform.mesosphere.com/service/dcos-terraform-jenkins/buildStatus/text?job=dcos-terraform%2F"
  +:+ repoName +:+ "%2F" +:+ branchHtmlDoubleEncoded.

Inductive tid := Main | Go (i : nat).

Inductive gpc :=
| GStart
| GFetched (cires : CiResult)
| GAppended
| GSending
| GDone.

Inductive mpc :=
| MWaiting
| MReceived
| MReturned (res : list CiResult).

Record PState := mkPState {
  gos : list gpc;
  returnCiRes : list CiResult;
  mainpc : mpc;
  exited : bool;
  requests : list string
}.

Definition prober_init (bs : list string) : PState :=
  {| gos := replicate (length bs) GStart; returnCiRes := [];
     mainpc := MWaiting; exited := false; requests := [] |}.

Definition prober_step (http_get : Jenkins) (bs : list string) (repoName : string)
    (t : tid) (s : PState) : PState :=
  if exited s then s
  else
    match t with
    | Main =>
        match mainpc s with
        | MReceived =>
            {| gos := gos s; returnCiRes := returnCiRes s;
               mainpc := MReturned (returnCiRes s);
               exited := false; requests := requests s |}
        | _ => s
        end
    | Go i =>
        match gos s !! i, bs !! i with
        | Some GStart, Some b =>
            let branchHtmlDoubleEncoded := QueryEscape (QueryEscape b) in
            let url := jenkins_text_url repoName branchHtmlDoubleEncoded in
            match http_get url with
            | HttpErr =>
                {| gos := gos s; returnCiRes := returnCiRes s; mainpc := mainpc s;
                   exited := true; requests := requests s ++ [url] |}
            | HttpOk code body =>
                let cires :=
                  {| BranchesIndex := i;
                     BranchHtmlDoubleEncoded := branchHtmlDoubleEncoded;
                     Build := classify code body |} in
                {| gos := <[i := GFetched cires]> (gos s);
                   returnCiRes := returnCiRes s; mainpc := mainpc s;
                   exited := false; requests := requests s ++ [url] |}
            end
        | Some (GFetched cires), _ =>
            {| gos := <[i := GAppended]> (gos s);
               returnCiRes := returnCiRes s ++ [cires]; mainpc := mainpc s;
               exited := false; requests := requests s |}
        | Some GAppended, _ =>
            {| gos := <[i := if (length (returnCiRes s) =? length bs)%nat
                             then GSending else GDone]> (gos s);
               returnCiRes := returnCiRes s; mainpc := mainpc s;
               exited := false; requests := requests s |}
        | Some GSending, _ =>
            match mainpc s with
            | MWaiting =>
                {| gos := <[i := GDone]> (gos s); returnCiRes := returnCiRes s;
                   mainpc := MReceived; exited := false; requests := requests s |}
            | _ => s
            end
        | _, _ => s
        end
    end.

Definition prober_run (http_get : Jenkins) (bs : list string) (repoName : string)
    (sched : list tid) (s : PState) : PState :=
  fold_left (fun s t => prober_step http_get bs repoName t s) sched s.

Inductive Outcome (A : Type) :=
| Returned (a : A)
| Pending
| Exited.
Arguments Returned {A} a.
Arguments Pending {A}.
Arguments Exited {A}.

Definition prober_outcome (s : PState) : Outcome (list CiResult) :=
  if exited s then Exited
  else match mainpc s with
       | MReturned res => Returned res
       | _ => Pending
       end.

Definition getJenkinsBuildStatusBadge (http_get : Jenkins) (bs : list string)
    (repoName : string) (sched : list tid) : Outcome (list CiResult) :=
  prober_outcome (prober_run http_get bs repoName sched (prober_init bs)).

(** What the goroutine of branch [i] appends when its request succeeds. *)
Definition branch_result (http_get : Jenkins) (bs : list string) (repoName : string)
    (i : nat) : option CiResult :=
  match bs !! i with
  | None => None
  | Some b =>
      let enc := QueryEscape (QueryEscape b) in
      match http_get (jenkins_text_url repoName enc) with
      | HttpErr => None
      | HttpOk code body =>
          Some {| BranchesIndex := i; BranchHtmlDoubleEncoded := enc;
                  Build := classify code body |}
      end
  end.

(** The results of the branches [order], in that order. *)
Definition results_of (http_get : Jenkins) (bs : list string) (repoName : string)
    (order : list nat) : list CiResult :=
  omap (branch_result http_get bs repoName) order.

(** The results in the order of the branch list. *)
Definition results_in_order (http_get : Jenkins) (bs : list string) (repoName : string)
    : list CiResult :=
  results_of http_get bs repoName (seq 0 (length bs)).

(** No request of the run meets a transport error. *)
Definition transport_ok (http_get : Jenkins) (bs : list string) (repoName : string) : Prop :=
  forall i, (i < length bs)%nat -> is_Some (branch_result http_get bs repoName i).

Definition appended (g : gpc) : bool :=
  match g with
  | GAppended | GSending | GDone => true
  | GStart | GFetched _ => false
  end.

(** What holds of every state a schedule can reach. *)
Record prober_inv (http_get : Jenkins) (bs : list string) (repoName : string)
    (s : PState) : Prop := mkProberInv {
  inv_gos : length (gos s) = length bs;
  inv_nodup : NoDup (map BranchesIndex (returnCiRes s));
  inv_buf : forall r, r ∈ returnCiRes s ->
      branch_result http_get bs repoName (BranchesIndex r) = Some r /\
      jenkins_text_url repoName (BranchHtmlDoubleEncoded r) ∈ requests s /\
      forall g, gos s !! BranchesIndex r = Some g -> appended g = true;
  inv_fetched : forall i r, gos s !! i = Some (GFetched r) ->
      branch_result http_get bs repoName i = Some r /\
      jenkins_text_url repoName (BranchHtmlDoubleEncoded r) ∈ requests s;
  inv_sending : forall i, gos s !! i = Some GSending ->
      (length bs <= length (returnCiRes s))%nat;
  inv_main : mainpc s <> MWaiting -> (length bs <= length (returnCiRes s))%nat;
  inv_returned : forall res, mainpc s = MReturned res ->
      (length bs <= length res)%nat /\
      NoDup (map BranchesIndex res) /\
      forall r, r ∈ res ->
        branch_result http_get bs repoName (BranchesIndex r) = Some r /\
        jenkins_text_url repoName (BranchHtmlDoubleEncoded r) ∈ requests s;
  inv_requests : forall u, u ∈ requests s ->
      exists i b, bs !! i = Some b /\
        u = jenkins_text_url repoName (QueryEscape (QueryEscape b))
}.


(** The number of actions the goroutine [i] has still to take. *)
Definition rank (s : PState) (i : nat) : nat :=
  match gos s !! i with
  | Some GStart => 4
  | Some (GFetched _) => 3
  | Some GAppended => 2
  | Some GSending => match mainpc s with MWaiting => 1 | _ => 0 end
  | Some GDone | None => 0
  end.


(** The URL the goroutine of branch [i] asks for. *)
Definition url_at (bs : list string) (repoName : string) (i : nat) : string :=
  match bs !! i with
  | Some b => jenkins_text_url repoName (QueryEscape (QueryEscape b))
  | None => EmptyString
  end.

(** The requests made so far are those of the goroutines that have left
    their start, one each, in the order in which they were made. *)
Definition prober_asked (bs : list string) (repoName : string) (s : PState) : Prop :=
  exists order : list nat,
    NoDup order /\
    requests s = map (url_at bs repoName) order /\
    (exited s = false ->
     forall i, i ∈ order <-> exists g, gos s !! i = Some g /\ g <> GStart).

(** The schedule in which the goroutines run to their end one after the
    other, in the order [order], and the caller then returns. *)
Definition sequential (order : list nat) : list tid :=
  flat_map (fun i => [Go i; Go i; Go i; Go i]) order ++ [Main].

(** A schedule in which the goroutines of the first two branches both
    compare the length after both have appended: the other goroutines run
    to their end first; then the two make their requests and append, both
    find the slice full, the first sends, and the caller returns. *)
Definition race (bs : list string) : list tid :=
  flat_map (fun i => [Go i; Go i; Go i; Go i]) (seq 2 (length bs - 2))
  ++ [Go 0; Go 0; Go 1; Go 1; Go 0; Go 1; Go 0; Main].

(** ** [sort.SliceStable] *)

Fixpoint insert_stable {A : Type} (less : A -> A -> bool) (x : A) (l : list A) : list A :=
  match l with
  | [] => [x]
  | y :: l' => if less y x then y :: insert_stable less x l' else x :: y :: l'
  end.

(** The stable sort of a slice: equal elements keep their order. *)
Fixpoint SliceStable {A : Type} (less : A -> A -> bool) (l : list A) : list A :=
  match l with
  | [] => []
  | x :: l' => insert_stable less x (SliceStable less l')
  end.

Definition less_BranchesIndex (a b : CiResult) : bool :=
  (BranchesIndex a <? BranchesIndex b)%nat.

(** ** [markdownContent] *)

Definition status_badge_icon_prefix : string := "[![Build Status](".
Definition status_badge_link_prefix : string :=
  "(https://jenkins-terraform.mesosphere.com/service/dcos-terraform-jenkins/job/dcos-terraform/job/".

Definition separator : string := "---" +:+ nl.
Definition topic : string := "# DC/OS Terraform modules" +:+ nl.
Definition tablehead : string := "| Repository | support/0.2.x | support/0.1.x |" +:+ nl.
Definition tablesplit : string := "| --- | --- | --- |" +:+ nl.

(** The loop of lines 274-283; [i] is the index of the head of [badges]. *)
Fixpoint render_badges (repoName : string) (lastBadge : Z) (i : nat)
    (badges : list CiResult) (md : string) : string :=
  match badges with
  | [] => md
  | badge :: rest =>
      let md' :=
        if (Z.of_nat i =? lastBadge)%Z then
          md +:+ (Image (Build badge) +:+ ")]" +:+ status_badge_link_prefix +:+ repoName
                  +:+ "/job/" +:+ BranchHtmlDoubleEncoded badge +:+ "/) ")
        else
          md +:+ (Image (Build badge) +:+ ")]" +:+ status_badge_link_prefix +:+ repoName
                  +:+ "/job/" +:+ BranchHtmlDoubleEncoded badge +:+ "/) | "
                  +:+ status_badge_icon_prefix) in
      render_badges repoName lastBadge (S i) rest md'
  end.

(** The loop of lines 264-285 over one bucket.  [scheds k] is the schedule
    of the [k]-th call of the prober in this run. *)
Fixpoint render_rows (http_get : Jenkins) (bs : list string) (scheds : nat -> list tid)
    (bucket_repos : list Repository) (k : nat) (md : string) : Outcome (string * nat) :=
  match bucket_repos with
  | [] => Returned (md, k)
  | repo :: rest =>
      let md := md +:+ ("| " +:+ Name repo +:+ " | " +:+ status_badge_icon_prefix) in
      match getJenkinsBuildStatusBadge http_get bs (Name repo) (scheds k) with
      | Returned badges =>
          let badges := SliceStable less_BranchesIndex badges in
          let lastBadge := (Z.of_nat (length badges) - 1)%Z in
          let md := render_badges (Name repo) lastBadge 0 badges md in
          render_rows http_get bs scheds rest (S k) (md +:+ ("|" +:+ nl))
      | Pending => Pending
      | Exited => Exited
      end
  end.

(** The loop of lines 252-286 over the provider keys. *)
Fixpoint render_sections (http_get : Jenkins) (bs : list string) (scheds : nat -> list tid)
    (m : gmap string (list Repository)) (keys : list string) (k : nat) (md : string)
    : Outcome (string * nat) :=
  match keys with
  | [] => Returned (md, k)
  | p :: keys' =>
      let md := md +:+ separator in
      let providers := "### Provider: **" +:+ p +:+ "**" +:+ nl in
      let md := md +:+ providers in
      let md := md +:+ tablehead in
      let md := md +:+ tablesplit in
      match render_rows http_get bs scheds (bucket m p) k md with
      | Returned (md, k') => render_sections http_get bs scheds m keys' k' md
      | Pending => Pending
      | Exited => Exited
      end
  end.

Definition markdownContent (http_get : Jenkins) (scheds : nat -> list tid) (st : State)
    : Outcome State :=
  let md := EmptyString +:+ topic in
  match render_sections http_get (branches st) scheds (repos st) (provider st) 0 md with
  | Returned (md, _) => Returned (set_markdownCache md st)
  | Pending => Pending
  | Exited => Exited
  end.

(** The document the spec describes, written with the cells of each row in
    the order of the branch list. *)
Definition badge_cell (repoName : string) (badge : CiResult) : string :=
  status_badge_icon_prefix +:+ Image (Build badge) +:+ ")]" +:+ status_badge_link_prefix
  +:+ repoName +:+ "/job/" +:+ BranchHtmlDoubleEncoded badge +:+ "/)".

Fixpoint join (sep : string) (l : list string) : string :=
  match l with
  | [] => EmptyString
  | [x] => x
  | x :: l' => x +:+ sep +:+ join sep l'
  end.

Definition table_row (repoName : string) (badges : list CiResult) : string :=
  "| " +:+ repoName +:+ " | " +:+ join " | " (map (badge_cell repoName) badges)
  +:+ " |" +:+ nl.

Definition section_head (p : string) : string :=
  separator +:+ "### Provider: **" +:+ p +:+ "**" +:+ nl +:+ tablehead +:+ tablesplit.

Fixpoint concat_strings (l : list string) : string :=
  match l with
  | [] => EmptyString
  | x :: l' => x +:+ concat_strings l'
  end.

(** The rows of a bucket, the section of a provider key, the document. *)
Definition table_rows (http_get : Jenkins) (bs : list string)
    (bucket_repos : list Repository) : string :=
  concat_strings
    (map (fun repo => table_row (Name repo) (results_in_order http_get bs (Name repo)))
       bucket_repos).

Definition section (http_get : Jenkins) (bs : list string)
    (m : gmap string (list Repository)) (p : string) : string :=
  section_head p +:+ table_rows http_get bs (bucket m p).

Definition document (http_get : Jenkins) (bs : list string)
    (m : gmap string (list Repository)) (keys : list string) : string :=
  topic +:+ concat_strings (map (section http_get bs m) keys).


(** The number of prober calls of a run of [markdownContent]. *)
Definition probes (m : gmap string (list Repository)) (keys : list string) : nat :=
  list_sum (map (fun p => length (bucket m p)) keys).

(** ** The HTML page

    [markdown.ToHTML] belongs to the gomarkdown library.  With the flag
    [CompletePage] and without [UseXHTML] its renderer opens the document
    with the HTML5 doctype line and the [html] tag; the text that follows
    (the head built from the options, the rendered body, the closing tags)
    is left to the oracle [render_rest]. *)

Inductive HtmlFlag :=
| Smartypants | SmartypantsFractions | SmartypantsDashes | SmartypantsLatexDashes
| CompletePage | HrefTargetBlank | UseXHTML.

Definition HtmlFlag_eqb (a b : HtmlFlag) : bool :=
  match a, b with
  | Smartypants, Smartypants | SmartypantsFractions, SmartypantsFractions
  | SmartypantsDashes, SmartypantsDashes
  | SmartypantsLatexDashes, SmartypantsLatexDashes
  | CompletePage, CompletePage | HrefTargetBlank, HrefTargetBlank
  | UseXHTML, UseXHTML => true
  | _, _ => false
  end.

Definition has_flag (f : HtmlFlag) (flags : list HtmlFlag) : bool :=
  existsb (HtmlFlag_eqb f) flags.

Definition CommonFlags : list HtmlFlag :=
  [Smartypants; SmartypantsFractions; SmartypantsDashes; SmartypantsLatexDashes].

Record RendererOptions := mkRendererOptions {
  Title : string;
  Flags : list HtmlFlag;
  CSS : string;
  Icon : string;
  Head : string;
  Generator : string
}.

Definition GENERATOR : string :=
  "  <meta name=" +:+ dq +:+ "GENERATOR" +:+ dq +:+ " content=" +:+ dq
  +:+ "dcos-terraform-statuspage".

Definition HEAD_EXTRA : string :=
  "  <link rel=" +:+ dq +:+ "apple-touch-icon" +:+ dq +:+ " sizes=" +:+ dq +:+ "180x180" +:+ dq
     +:+ " href=" +:+ dq +:+ "/apple-touch-icon.png" +:+ dq +:+ ">" +:+ nl +:+
  "  <link rel=" +:+ dq +:+ "icon" +:+ dq +:+ " type=" +:+ dq +:+ "image/png" +:+ dq
     +:+ " sizes=" +:+ dq +:+ "32x32" +:+ dq +:+ " href=" +:+ dq +:+ "/favicon-32x32.png" +:+ dq
     +:+ ">" +:+ nl +:+
  "  <link rel=" +:+ dq +:+ "icon" +:+ dq +:+ " type=" +:+ dq +:+ "image/png" +:+ dq
     +:+ " sizes=" +:+ dq +:+ "16x16" +:+ dq +:+ " href=" +:+ dq +:+ "/favicon-16x16.png" +:+ dq
     +:+ ">" +:+ nl +:+
  "  <link rel=" +:+ dq +:+ "manifest" +:+ dq +:+ " href=" +:+ dq +:+ "/site.webmanifest" +:+ dq
     +:+ ">" +:+ nl +:+
  "  <link rel=" +:+ dq +:+ "mask-icon" +:+ dq +:+ " href=" +:+ dq +:+ "/safari-pinned-tab.svg"
     +:+ dq +:+ " color=" +:+ dq +:+ "#5bbad5" +:+ dq +:+ ">" +:+ nl +:+
  "  <meta name=" +:+ dq +:+ "msapplication-TileColor" +:+ dq +:+ " content=" +:+ dq
     +:+ "#da532c" +:+ dq +:+ ">" +:+ nl +:+
  "  <meta name=" +:+ dq +:+ "theme-color" +:+ dq +:+ " content=" +:+ dq +:+ "#ffffff"
     +:+ dq +:+ ">".

Definition HtmlRest := RendererOptions -> string -> string.

Definition document_open (opts : RendererOptions) : string :=
  if has_flag CompletePage (Flags opts) && negb (has_flag UseXHTML (Flags opts))
  then "<!DOCTYPE html>" +:+ nl +:+ "<html>" +:+ nl
  else EmptyString.

Definition markdown_ToHTML (render_rest : HtmlRest) (opts : RendererOptions)
    (md : string) : string :=
  document_open opts +:+ render_rest opts md.

Definition renderMarkdownHtml (render_rest : HtmlRest) (st : State) : string :=
  let flags := CommonFlags ++ [CompletePage] ++ [HrefTargetBlank] in
  let opts :=
    {| Title := "DC/OS Terraform modules";
       Flags := flags;
       CSS := STATIC_DIR +:+ "css/" +:+ STATIC_CSS_FILE;
       Icon := "/favicon.ico";
       Head := HEAD_EXTRA;
       Generator := GENERATOR |} in
  markdown_ToHTML render_rest opts (markdownCache st).

(** ** The HTTP handlers *)

(** What a handler has done to its [http.ResponseWriter]: the header map,
    the status once it is written, the body bytes. *)
Record ResponseWriter := mkResponseWriter {
  header : list (string * string);
  wroteHeader : option Z;
  written : string
}.

Definition new_ResponseWriter : ResponseWriter :=
  {| header := []; wroteHeader := None; written := EmptyString |}.

Definition Header_Set (key value : string) (w : ResponseWriter) : ResponseWriter :=
  {| header :=
       List.filter (fun kv => negb (String.eqb (fst kv) key)) (header w) ++ [(key, value)];
     wroteHeader := wroteHeader w; written := written w |}.

Definition WriteHeader (code : Z) (w : ResponseWriter) : ResponseWriter :=
  match wroteHeader w with
  | Some _ => w
  | None => {| header := header w; wroteHeader := Some code; written := written w |}
  end.

(** A first [Write] without [WriteHeader] sends the status 200. *)
Definition Write (b : string) (w : ResponseWriter) : ResponseWriter :=
  let w := WriteHeader StatusOK w in
  {| header := header w; wroteHeader := wroteHeader w; written := written w +:+ b |}.

Record Request := mkRequest { Method : string; Path : string }.

Definition handler (render_rest : HtmlRest) (st : State) (w : ResponseWriter)
    (r : Request) : ResponseWriter :=
  let w := Header_Set "Cache-Control" "max-age=600" w in
  Write (renderMarkdownHtml render_rest st) w.

Definition livenessHandler (w : ResponseWriter) (r : Request) : ResponseWriter :=
  let w := WriteHeader StatusOK w in
  Write "ok" w.

(** The routes [main] registers, in the order the router tries them: the
    two exact paths, one exact path per favicon file, the static prefix. *)
Inductive Route := RouteRoot | RouteHealth | RouteFavicon | RouteStatic | RouteNotFound.

Definition route (favicons : list string) (path : string) : Route :=
  if String.eqb path "/" then RouteRoot
  else if String.eqb path "/health" then RouteHealth
  else if existsb (fun f => String.eqb path ("/" +:+ f)) favicons then RouteFavicon
  else if String.prefix STATIC_DIR path then RouteStatic
  else RouteNotFound.

(** The file handlers and the router's not-found answer are the libraries';
    [files] stands for them. *)
Definition serve (render_rest : HtmlRest) (files : Route -> Request -> ResponseWriter)
    (favicons : list string) (st : State) (r : Request) : ResponseWriter :=
  match route favicons (Path r) with
  | RouteRoot => handler render_rest st new_ResponseWriter r
  | RouteHealth => livenessHandler new_ResponseWriter r
  | other => files other r
  end.

(** ** Sample data *)

Definition sample_repos : list Repository :=
  [ {| ID := 1; Name := "terraform-aws-cluster"; OwnerLogin := "dcos-terraform"; Archived := false |};
    {| ID := 2; Name := "terraform-aws-old"; OwnerLogin := "dcos-terraform"; Archived := true |};
    {| ID := 3; Name := "terraform-gcp-base"; OwnerLogin := "dcos-terraform"; Archived := false |} ].

(** Two pages: the first two repositories, then the third. *)
Definition sample_api : GitHubAPI := fun n org page =>
  match page with
  | 0%nat => ListOk (firstn 2 sample_repos) 2
  | 2%nat => ListOk (skipn 2 sample_repos) 0
  | _ => ListErr
  end.

(** The second page fails. *)
Definition failing_api : GitHubAPI := fun n org page =>
  match page with
  | 0%nat => ListOk (firstn 2 sample_repos) 2
  | _ => ListErr
  end.

Definition sample_State : State :=
  {| markdownCache := EmptyString; provider := ["aws"; "gcp"];
     branches := main_branches; repos := ∅ |}.

Definition sample_repo : Repository :=
  {| ID := 1; Name := "terraform-aws-cluster"; OwnerLogin := "dcos-terraform";
     Archived := false |}.


(** A provider list in which one key is the beginning of another. *)
Definition overlapping_State : State :=
  {| markdownCache := EmptyString; provider := ["aws"; "aws-c"];
     branches := main_branches; repos := ∅ |}.

(** The state after the sample listing was fetched. *)
Definition sample_fetched : State :=
  {| markdownCache := EmptyString; provider := ["aws"; "gcp"];
     branches := main_branches;
     repos := <["aws" := [sample_repo]]>
                (<["gcp" := [ {| ID := 3; Name := "terraform-gcp-base";
                                  OwnerLogin := "dcos-terraform";
                                  Archived := false |} ]]> ∅) |}.

(** A Jenkins that cannot be reached. *)
Definition down_jenkins : Jenkins := fun _ => HttpErr.

(** An API whose every answer names a next page. *)
Definition endless_api : GitHubAPI := fun n org page => ListOk [] (S page).

(** A map with an entry that no listing backs. *)
Definition stale_repos : gmap string (list Repository) :=
  <["aws" := [ {| ID := 9; Name := "terraform-aws-gone"; OwnerLogin := "dcos-terraform";
                  Archived := false |} ]]> ∅.

(** An organisation whose only repository is archived, and options whose
    prefix is not a pattern. *)
Definition archived_api : GitHubAPI := fun n org page =>
  ListOk [ {| ID := 2; Name := "terraform-aws-old"; OwnerLogin := "dcos-terraform";
              Archived := true |} ] 0.

Definition unbalanced_Options (org : string) : OptionsT :=
  {| GitHubOrg := org; GitHubRepoPrefix := "(" |}.

(** Jenkins says "Success" for support/0.2.x and "Failed" for support/0.1.x. *)
Definition sample_jenkins : Jenkins := fun url =>
  if String.eqb url (jenkins_text_url "terraform-aws-cluster" "support%252F0.2.x")
  then HttpOk 200 "Success"
  else if String.eqb url (jenkins_text_url "terraform-aws-cluster" "support%252F0.1.x")
  then HttpOk 200 "Failed"
  else HttpOk 404 "Not found".

Example QueryEscape_twice_support :
  QueryEscape (QueryEscape "support/0.2.x") = "support%252F0.2.x".
Proof. reflexivity. Qed.

Example classify_ok_success : classify 200 "Success" = state_badge Passing.
Proof. reflexivity. Qed.

Example compile_aws_matches :
  (r ← regexp_Compile (bucket_pattern "terraform-" "aws");
   Some (MatchString r "terraform-aws-cluster", MatchString r "terraform-gcp-base",
         MatchString r "Terraform-aws-cluster", MatchString r "x-terraform-aws"))
  = Some (true, false, false, false).
Proof. vm_compute. reflexivity. Qed.

(** * Properties *)

(** ** Strings *)

Lemma string_app_nil_r (s : string) : s +:+ EmptyString = s.
Proof.
  induction s as [|c s IH]; [reflexivity|].
  change (String c (s +:+ EmptyString) = String c s). by rewrite IH.
Qed.

Lemma string_app_assoc (s1 s2 s3 : string) : (s1 +:+ s2) +:+ s3 = s1 +:+ (s2 +:+ s3).
Proof.
  induction s1 as [|c s1 IH]; [reflexivity|].
  change (String c ((s1 +:+ s2) +:+ s3) = String c (s1 +:+ (s2 +:+ s3))).
  by rewrite IH.
Qed.

Lemma string_app_cons (c : ascii) (s1 s2 : string) :
  String c s1 +:+ s2 = String c (s1 +:+ s2).
Proof. reflexivity. Qed.

Lemma string_app_nil_l (s : string) : EmptyString +:+ s = s.
Proof. reflexivity. Qed.

(** ** The classification of one answer *)

Lemma classify_cases (statusCode : Z) (body : string) :
  classify statusCode body =
    state_badge
      (if String.eqb body "Success" then Passing
       else if String.eqb body "In progress" then Running
       else if String.eqb body "Failed" then Failing
       else if String.eqb body "Aborted" then Aborted
       else NotRun).
Proof.
  unfold classify.
  repeat match goal with |- context [String.eqb body ?s] => destruct (String.eqb body s) end;
    reflexivity.
Qed.

(** On a 200 answer the code and the spec agree for every body. *)
Lemma classify_ok_agrees (body : string) :
  classify StatusOK body = state_badge (classify_spec StatusOK body).
Proof. rewrite classify_cases. reflexivity. Qed.

(** A body that is none of the four words is not-run under every status. *)
Lemma classify_other_body (statusCode : Z) (body : string) :
  body <> "Success" -> body <> "In progress" -> body <> "Failed" -> body <> "Aborted" ->
  classify statusCode body = state_badge NotRun.
Proof.
  intros H1 H2 H3 H4. rewrite classify_cases.
  apply String.eqb_neq in H1, H2, H3, H4. by rewrite H1, H2, H3, H4.
Qed.

(** C1, at the input where the code leaves the spec: the answer has status
    500 and the body "Success".  The code shows the passing badge; the spec
    asks for not-run under every status other than 200. *)
Theorem classify_non200_success_is_passing :
  classify 500 "Success" = state_badge Passing /\
  classify_spec 500 "Success" = NotRun /\
  Result (classify 500 "Success") = 1%Z /\
  Image (classify 500 "Success") = "/static/images/1-build-passing.svg".
Proof. repeat split. Qed.

(** C10: every badge the classification builds carries a result code
    between 0 and 4 and the image whose file name starts with that code:
    it is the badge of one of the five states. *)
Theorem classify_badge_invariant (statusCode : Z) (body : string) :
  let badge := classify statusCode body in
  (0 <= Result badge <= 4)%Z /\
  exists s : BuildState,
    Result badge = state_code s /\
    Image badge = state_image s /\
    Image badge =
      STATIC_DIR +:+ "images/" +:+ digit (Result badge) +:+ "-build-" +:+ state_label s +:+ ".svg".
Proof.
  cbv zeta. rewrite classify_cases.
  set (s := if String.eqb body "Success" then _ else _). clearbody s.
  split; [destruct s; cbn; lia|].
  exists s. destruct s; repeat split.
Qed.

(** ** The matcher against the meaning of the expressions *)

Lemma string_app_eq_nil (s1 s2 : string) :
  s1 +:+ s2 = EmptyString -> s1 = EmptyString /\ s2 = EmptyString.
Proof.
  destruct s1; [|discriminate]. intros H. change (s2 = EmptyString) in H. by subst.
Qed.

Lemma string_app_eq_cons (s1 s2 : string) (c : ascii) (w : string) :
  s1 +:+ s2 = String c w ->
  (s1 = EmptyString /\ s2 = String c w) \/
  (exists s1', s1 = String c s1' /\ w = s1' +:+ s2).
Proof.
  destruct s1 as [|c' s1'].
  - intros H. change (s2 = String c w) in H. by left.
  - intros H. change (String c' (s1' +:+ s2) = String c w) in H.
    injection H as -> <-. right. by eexists.
Qed.

Lemma Matches_cat_inv (r1 r2 : regex) (b : bool) (w : string) (e : bool) :
  Matches (RCat r1 r2) b w e ->
  exists w1 w2, w = w1 +:+ w2 /\
    Matches r1 b w1 (e && is_empty w2) /\ Matches r2 (b && is_empty w1) w2 e.
Proof. inversion 1; subst. by eexists _, _. Qed.

Lemma Matches_alt_inv (r1 r2 : regex) (b : bool) (w : string) (e : bool) :
  Matches (RAlt r1 r2) b w e -> Matches r1 b w e \/ Matches r2 b w e.
Proof. inversion 1; subst; auto. Qed.

Lemma Matches_star_cons_inv (r : regex) (b : bool) (c : ascii) (w : string) (e : bool) :
  Matches (RStar r) b (String c w) e ->
  exists w1 w2, w = w1 +:+ w2 /\
    Matches r b (String c w1) (e && is_empty w2) /\ Matches (RStar r) false w2 e.
Proof.
  intros H. remember (RStar r) as r0 eqn:Hr. remember (String c w) as w0 eqn:Hw.
  destruct H as [| | | | | | | | |r' b c' w1 w2 e H1 H2]; try discriminate.
  injection Hr as ->. change (String c' (w1 +:+ w2) = String c w) in Hw.
  injection Hw as -> <-. by eexists _, _.
Qed.

Lemma Matches_eps_inv (b : bool) (w : string) (e : bool) :
  Matches REps b w e -> w = EmptyString.
Proof. by inversion 1. Qed.

Lemma Matches_begin_inv (b : bool) (w : string) (e : bool) :
  Matches RBeginText b w e -> w = EmptyString /\ b = true.
Proof. by inversion 1. Qed.

Lemma Matches_end_inv (b : bool) (w : string) (e : bool) :
  Matches REndText b w e -> w = EmptyString /\ e = true.
Proof. by inversion 1. Qed.

Lemma nullable_Matches (r : regex) (b e : bool) :
  nullable b e r = true <-> Matches r b EmptyString e.
Proof.
  induction r as [| | | | | |r1 IH1 r2 IH2|r1 IH1 r2 IH2|r IH]; cbn [nullable].
  - split; [done|inversion 1].
  - split; [constructor|done].
  - split; [done|inversion 1].
  - split; [done|inversion 1].
  - split; [intros ->; constructor|by inversion 1].
  - split; [intros ->; constructor|by inversion 1].
  - rewrite andb_true_iff, IH1, IH2. split.
    + intros [H1 H2].
      apply (Matches_cat r1 r2 b EmptyString EmptyString e); cbn;
        by rewrite andb_true_r.
    + intros H. apply Matches_cat_inv in H as (w1 & w2 & Hw & H1 & H2).
      symmetry in Hw. apply string_app_eq_nil in Hw as [-> ->].
      cbn in H1, H2. by rewrite andb_true_r in H1, H2.
  - rewrite orb_true_iff, IH1, IH2. split.
    + intros [H|H]; [by apply Matches_alt_l|by apply Matches_alt_r].
    + apply Matches_alt_inv.
  - split; [constructor|done].
Qed.

Lemma deriv_Matches (r : regex) (b : bool) (c : ascii) :
  forall (w : string) (e : bool),
    Matches (deriv b c r) false w e <-> Matches r b (String c w) e.
Proof.
  induction r as [| | c'| | | |r1 IH1 r2 IH2|r1 IH1 r2 IH2|r IH]; intros w e;
    cbn [deriv].
  - split; inversion 1.
  - split; inversion 1.
  - destruct (Ascii.eqb_spec c c') as [->|Hne].
    + split; [inversion 1; constructor|inversion 1; constructor].
    + split; [inversion 1|inversion 1; congruence].
  - destruct (Ascii.eqb_spec c newline) as [->|Hne].
    + split; [inversion 1|inversion 1; congruence].
    + split; [inversion 1; by constructor|inversion 1; constructor].
  - split; inversion 1.
  - split; inversion 1.
  - assert (Hl : Matches (RCat (deriv b c r1) r2) false w e ->
                 Matches (RCat r1 r2) b (String c w) e).
    { intros H. apply Matches_cat_inv in H as (w1 & w2 & -> & H1 & H2).
      apply IH1 in H1. cbn in H2.
      apply (Matches_cat r1 r2 b (String c w1) w2 e); [done|].
      cbn. by rewrite andb_false_r. }
    assert (Hr : nullable b false r1 = true -> Matches (deriv b c r2) false w e ->
                 Matches (RCat r1 r2) b (String c w) e).
    { intros Hn H. apply nullable_Matches in Hn. apply IH2 in H.
      apply (Matches_cat r1 r2 b EmptyString (String c w) e); cbn;
        by rewrite ?andb_false_r, ?andb_true_r. }
    assert (Hback : Matches (RCat r1 r2) b (String c w) e ->
              Matches (RCat (deriv b c r1) r2) false w e \/
              (nullable b false r1 = true /\ Matches (deriv b c r2) false w e)).
    { intros H. apply Matches_cat_inv in H as (w1 & w2 & Hw & H1 & H2).
      symmetry in Hw. apply string_app_eq_cons in Hw as [[-> ->]|(w1' & -> & ->)].
      - right. cbn in H1, H2. rewrite andb_false_r in H1. rewrite andb_true_r in H2.
        split; [by apply nullable_Matches|by apply IH2].
      - left. cbn in H2. rewrite andb_false_r in H2. apply IH1 in H1.
        by apply (Matches_cat (deriv b c r1) r2 false w1' w2 e). }
    destruct (nullable b false r1) eqn:Hn.
    + split.
      * intros H. apply Matches_alt_inv in H as [H|H]; [by apply Hl|by apply Hr].
      * intros H. apply Hback in H as [H|[_ H]];
          [by apply Matches_alt_l|by apply Matches_alt_r].
    + split; [apply Hl|]. intros H. by apply Hback in H as [H|[? _]].
  - split.
    + intros H. apply Matches_alt_inv in H as [H|H];
        [apply Matches_alt_l; by apply IH1|apply Matches_alt_r; by apply IH2].
    + intros H. apply Matches_alt_inv in H as [H|H];
        [apply Matches_alt_l; by apply IH1|apply Matches_alt_r; by apply IH2].
  - split.
    + intros H. apply Matches_cat_inv in H as (w1 & w2 & -> & H1 & H2).
      apply IH in H1. cbn in H2.
      by apply (Matches_star_step r b c w1 w2 e).
    + intros H. apply Matches_star_cons_inv in H as (w1 & w2 & -> & H1 & H2).
      apply IH in H1.
      by apply (Matches_cat (deriv b c r) (RStar r) false w1 w2 e).
Qed.

(** [match_here] finds the prefixes that the expression matches. *)
Lemma match_here_Matches (s : string) :
  forall (b : bool) (r : regex),
    match_here b r s = true <->
    exists w rest, s = w +:+ rest /\ Matches r b w (is_empty rest).
Proof.
  induction s as [|c s IH]; intros b r; cbn [match_here].
  - rewrite nullable_Matches. split.
    + intros H. by exists EmptyString, EmptyString.
    + intros (w & rest & Hw & H). symmetry in Hw.
      by apply string_app_eq_nil in Hw as [-> ->].
  - rewrite orb_true_iff, nullable_Matches, IH. split.
    + intros [H|(w & rest & -> & H)].
      * by exists EmptyString, (String c s).
      * apply deriv_Matches in H. by exists (String c w), rest.
    + intros (w & rest & Hw & H). symmetry in Hw.
      apply string_app_eq_cons in Hw as [[-> ->]|(w' & -> & ->)].
      * by left.
      * right. exists w', rest. split; [done|]. by apply deriv_Matches.
Qed.

(** [MatchString] finds the pieces of the text that the expression
    matches. *)
Lemma match_from_Matches (s : string) :
  forall (b : bool) (r : regex),
    match_from b r s = true <->
    exists pre w post, s = pre +:+ w +:+ post /\
      Matches r (b && is_empty pre) w (is_empty post).
Proof.
  induction s as [|c s IH]; intros b r; cbn [match_from];
    rewrite orb_true_iff, match_here_Matches.
  - split.
    + intros [(w & rest & Hw & H)|?]; [|done].
      exists EmptyString, w, rest. cbn. by rewrite andb_true_r.
    + intros (pre & w & post & Hs & H). left. symmetry in Hs.
      apply string_app_eq_nil in Hs as [-> Hs]. cbn in H. rewrite andb_true_r in H.
      by exists w, post.
  - rewrite IH. split.
    + intros [(w & rest & Hw & H)|(pre & w & post & -> & H)].
      * exists EmptyString, w, rest. cbn. by rewrite andb_true_r.
      * exists (String c pre), w, post. cbn. by rewrite andb_false_r.
    + intros (pre & w & post & Hs & H). destruct pre as [|c' pre].
      * left. cbn in H. rewrite andb_true_r in H. by exists w, post.
      * right. injection Hs as -> ->. exists pre, w, post. split; [done|].
        cbn in H. by rewrite andb_false_r in H.
Qed.

Theorem MatchString_Matches (r : regex) (s : string) :
  MatchString r s = true <->
  exists pre w post, s = pre +:+ w +:+ post /\
    Matches r (is_empty pre) w (is_empty post).
Proof. unfold MatchString. by rewrite match_from_Matches. Qed.

(** ** The bucket pattern of a literal prefix and a literal key *)

Lemma Matches_lits (s : string) :
  forall (b : bool) (w : string) (e : bool), Matches (lits s) b w e <-> w = s.
Proof.
  induction s as [|c s IH]; intros b w e; cbn [lits].
  - split; [by inversion 1|intros ->; constructor].
  - split.
    + intros H. apply Matches_cat_inv in H as (w1 & w2 & -> & H1 & H2).
      apply IH in H2 as ->. by inversion H1.
    + intros ->. apply (Matches_cat (RChar c) (lits s) b (String c EmptyString) s e).
      * constructor.
      * by apply IH.
Qed.

Lemma Matches_star_any (w : string) :
  forall (b e : bool), Matches (RStar RAnyNotNL) b w e <-> no_newline w = true.
Proof.
  induction w as [|c w IH]; intros b e; cbn [no_newline].
  - split; [done|constructor].
  - rewrite andb_true_iff, negb_true_iff. split.
    + intros H. apply Matches_star_cons_inv in H as (w1 & w2 & -> & H1 & H2).
      inversion H1 as [| |c' b' e' Hc| | | | | | |]; subst.
      apply IH in H2. split; [|done]. by apply Ascii.eqb_neq.
    + intros [Hc Hw]. apply Ascii.eqb_neq in Hc.
      apply (Matches_star_step RAnyNotNL b c EmptyString w e).
      * by constructor.
      * by apply IH.
Qed.

Lemma literal_not_star (s rest : string) :
  literal s = true -> starts_with_star rest = false ->
  starts_with_star (s +:+ rest) = false.
Proof.
  destruct s as [|c s]; [done|]. cbn [literal]. intros Hl _.
  apply andb_true_iff in Hl as [Hc _]. unfold is_literal in Hc.
  change (String c s +:+ rest) with (String c (s +:+ rest)). cbn [starts_with_star].
  by destruct (kind_of c).
Qed.

(** The parser reads a literal string that a closing parenthesis follows
    as the sequence of its bytes. *)
Lemma parse_seq_literal (s : string) :
  forall (fuel : nat) (rest : string),
    literal s = true ->
    (String.length s < fuel)%nat ->
    parse_seq fuel (s +:+ String ")"%char rest) = Some (lits s, String ")"%char rest).
Proof.
  induction s as [|c s IH]; intros fuel rest Hl Hfuel.
  - destruct fuel as [|fuel]; [lia|]. reflexivity.
  - cbn [literal] in Hl. apply andb_true_iff in Hl as [Hc Hl].
    destruct fuel as [|fuel]; [cbn in Hfuel; lia|].
    change (String c s +:+ String ")"%char rest)
      with (String c (s +:+ String ")"%char rest)).
    cbn [parse_seq]. unfold is_literal in Hc.
    destruct (kind_of c); try discriminate.
    assert (Hstar : starts_with_star (s +:+ String ")"%char rest) = false)
      by by apply literal_not_star.
    destruct (s +:+ String ")"%char rest) as [|c1 rest1] eqn:Hs.
    { by destruct s. }
    cbn [starts_with_star] in Hstar. cbn [String.length] in Hfuel.
    destruct (kind_of c1); try discriminate;
      rewrite <- Hs, IH by (done || lia); reflexivity.
Qed.

Lemma string_length_app (s1 s2 : string) :
  String.length (s1 +:+ s2) = (String.length s1 + String.length s2)%nat.
Proof.
  induction s1 as [|c s1 IH]; [done|].
  change (String c s1 +:+ s2) with (String c (s1 +:+ s2)). cbn. by rewrite IH.
Qed.

Lemma parse_seq_unfold (fuel : nat) (s : string) :
  parse_seq (S fuel) s =
    match s with
    | EmptyString => Some (REps, EmptyString)
    | String c rest =>
        let atom :=
          match kind_of c with
          | KClose => None
          | KOpen =>
              match parse_seq fuel rest with
              | Some (r, String c' rest') =>
                  match kind_of c' with
                  | KClose => Some (r, rest')
                  | _ => None
                  end
              | _ => None
              end
          | KBegin => Some (RBeginText, rest)
          | KEnd => Some (REndText, rest)
          | KDot => if starts_with_star rest then Some (RAnyNotNL, rest) else None
          | KLit => Some (RChar c, rest)
          | KStar | KMeta => None
          end in
        match kind_of c, atom with
        | KClose, _ => Some (REps, s)
        | _, None => None
        | _, Some (a, rest1) =>
            let starred :=
              match rest1 with
              | String c1 rest2 =>
                  match kind_of c1 with
                  | KStar =>
                      if starts_with_star rest2 then None
                      else Some (RStar a, rest2)
                  | _ => Some (a, rest1)
                  end
              | EmptyString => Some (a, rest1)
              end in
            match starred with
            | None => None
            | Some (a', rest2) =>
                match parse_seq fuel rest2 with
                | Some (r, rest3) => Some (RCat a' r, rest3)
                | None => None
                end
            end
        end
    end.
Proof. reflexivity. Qed.

Lemma parse_bucket_pattern (prefix key : string) (fuel : nat) :
  literal prefix = true -> literal key = true ->
  (String.length prefix <= fuel)%nat -> (String.length key <= fuel)%nat ->
  parse_seq (6 + fuel) (bucket_pattern prefix key)
  = Some (bucket_regex prefix key, EmptyString).
Proof.
  intros Hp Hk Hlp Hlk. unfold bucket_pattern, bucket_regex.
  change ("^(" +:+ prefix +:+ ")(" +:+ key +:+ ").*$")
    with (String "^"%char (String "("%char
            (prefix +:+ String ")"%char (String "("%char (key +:+ String ")"%char ".*$"))))).
  change (6 + fuel)%nat with (S (S (S (S (S (S fuel)))))).
  rewrite parse_seq_unfold. cbn [kind_of]. cbv iota beta zeta.
  rewrite parse_seq_unfold. cbn [kind_of]. cbv iota beta zeta.
  rewrite parse_seq_literal by (done || lia). cbn [kind_of]. cbv iota beta zeta.
  rewrite parse_seq_unfold. cbn [kind_of]. cbv iota beta zeta.
  rewrite parse_seq_literal by (done || lia). cbn [kind_of]. cbv iota beta zeta.
  reflexivity.
Qed.

Lemma compiled_literal (prefix key : string) :
  literal prefix = true -> literal key = true ->
  compiled prefix key = Some (bucket_regex prefix key).
Proof.
  intros Hp Hk. unfold compiled, regexp_Compile.
  replace (S (String.length (bucket_pattern prefix key)))
    with (6 + (3 + String.length prefix + String.length key))%nat.
  - rewrite parse_bucket_pattern by (done || lia). reflexivity.
  - unfold bucket_pattern. rewrite !string_length_app. cbn [String.length]. lia.
Qed.


(** What the bucket pattern of a literal prefix and key matches: the
    names that begin with the prefix and the key, byte for byte, and go on
    without a line feed to their end. *)
Theorem bucket_pattern_matches (prefix key name : string) :
  MatchString (bucket_regex prefix key) name = true <->
  exists rest, name = prefix +:+ key +:+ rest /\ no_newline rest = true.
Proof.
  rewrite MatchString_Matches. unfold bucket_regex. split.
  - intros (pre & w & post & -> & H).
    apply Matches_cat_inv in H as (w0 & w1 & -> & H0 & H).
    apply Matches_begin_inv in H0 as [-> Hpre].
    destruct pre; [|discriminate]. cbn [is_empty andb] in H.
    apply Matches_cat_inv in H as (wp & w2 & -> & Hp & H).
    apply Matches_lits in Hp as ->.
    apply Matches_cat_inv in H as (wk & w3 & -> & Hk & H).
    apply Matches_lits in Hk as ->.
    apply Matches_cat_inv in H as (wr & w4 & -> & Hr & H).
    apply Matches_star_any in Hr.
    apply Matches_cat_inv in H as (w5 & w6 & -> & He & H6).
    apply Matches_eps_inv in H6 as ->.
    apply Matches_end_inv in He as [-> Hpost].
    cbn [is_empty] in Hpost. rewrite andb_true_r in Hpost.
    destruct post; [|discriminate].
    exists wr. split; [|done].
    rewrite !string_app_nil_l, !string_app_nil_r. reflexivity.
  - intros (rest & -> & Hrest).
    exists EmptyString, (prefix +:+ key +:+ rest), EmptyString.
    split; [by rewrite string_app_nil_l, !string_app_nil_r|].
    cbn [is_empty].
    apply (Matches_cat RBeginText _ true EmptyString (prefix +:+ key +:+ rest) true);
      [constructor|].
    apply Matches_cat; [by apply Matches_lits|].
    apply Matches_cat; [by apply Matches_lits|].
    replace rest with (rest +:+ (EmptyString +:+ EmptyString))
      by (by rewrite string_app_nil_l, string_app_nil_r).
    apply Matches_cat; [by apply Matches_star_any|].
    apply Matches_cat; [|constructor].
    cbn [is_empty andb]. constructor.
Qed.

(** ** The fetcher *)

Lemma listAllPages_Listing (api : GitHubAPI) (org : string) n page calls allRepos ok :
  Listing api org n page calls allRepos ok ->
  forall fuel pre acc,
    length pre = n ->
    listAllPages fuel api org page pre acc =
      if (length calls <=? fuel)%nat then
        if ok then PagesDone (acc ++ allRepos) (pre ++ calls) else PagesFatal (pre ++ calls)
      else PagesOutOfFuel.
Proof.
  induction 1 as [n page Hapi|n page rs Hapi|n page rs next calls allRepos ok Hapi Hnext _ IH];
    intros fuel pre acc Hpre; subst n.
  - destruct fuel as [|fuel]; [reflexivity|]. cbn. by rewrite Hapi.
  - destruct fuel as [|fuel]; [reflexivity|]. cbn. by rewrite Hapi.
  - destruct fuel as [|fuel]; [reflexivity|].
    cbn [listAllPages]. rewrite Hapi.
    destruct (Nat.eqb_spec next 0) as [->|_]; [done|].
    rewrite IH by (rewrite length_app; cbn; lia).
    cbn [length]. change (S (length calls) <=? S fuel)%nat with (length calls <=? fuel)%nat.
    by rewrite <- !(assoc_L (++)).
Qed.

Lemma fill_bucket_matching (prefix i : string) (r : regex) (allRepos : list Repository) :
  compiled prefix i = Some r ->
  forall (m : gmap string (list Repository)) (l : list Repository),
    m !! i = Some l ->
    fill_bucket prefix i allRepos m = Some (<[i := l ++ matching r allRepos]> m).
Proof.
  intros Hr. unfold compiled in Hr.
  induction allRepos as [|repo rest IH]; intros m l Hl.
  - cbn. rewrite app_nil_r. by rewrite insert_id.
  - cbn [fill_bucket matching List.filter]. fold (matching r rest).
    destruct (Archived repo); cbn [negb andb]; [by apply IH|].
    rewrite Hr. destruct (MatchString r (Name repo)); [|by apply IH].
    unfold bucket. rewrite Hl. cbn [default].
    rewrite (IH _ (l ++ [repo])) by apply lookup_insert_eq.
    rewrite insert_insert_eq. by rewrite <- (assoc_L (++)).
Qed.

Lemma fill_buckets_matching (prefix : string) (allRepos : list Repository)
    (keys : list string) :
  (forall p, p ∈ keys -> is_Some (compiled prefix p)) ->
  forall m : gmap string (list Repository),
  exists m',
    fill_buckets prefix keys allRepos m = Some m' /\
    (forall p, p ∈ keys ->
       m' !! p = (fun r => matching r allRepos) <$> compiled prefix p) /\
    (forall q, q ∉ keys -> m' !! q = m !! q).
Proof.
  induction keys as [|i keys IH]; intros Hc m.
  - exists m. split; [done|]. split; [|done]. intros p Hp. by apply elem_of_nil in Hp.
  - destruct (Hc i) as [r Hr]; [apply list_elem_of_here|].
    cbn [fill_buckets].
    rewrite (fill_bucket_matching prefix i r allRepos Hr _ []) by apply lookup_insert_eq.
    rewrite insert_insert_eq. cbn [app].
    destruct (IH (fun p Hp => Hc p (list_elem_of_further _ _ _ Hp))
                (<[i := matching r allRepos]> m)) as (m' & Hm' & Hin & Hout).
    exists m'. split; [done|]. split.
    + intros p Hp. destruct (decide (p ∈ keys)) as [Hk|Hk]; [by apply Hin|].
      apply elem_of_cons in Hp as [->|Hp]; [|done].
      rewrite (Hout _ Hk), lookup_insert_eq, Hr. done.
    + intros q Hq. apply not_elem_of_cons in Hq as [Hqi Hq].
      rewrite (Hout _ Hq). by rewrite lookup_insert_ne.
Qed.

(** A run over a listing that ends, with patterns that compile. *)
Lemma fetchRepositorys_done (api : GitHubAPI) (opts : OptionsT) (org : string)
    (st : State) (calls : list nat) (allRepos : list Repository) (fuel : nat) :
  Listing api org 0 0 calls allRepos true ->
  (forall p, p ∈ provider st -> is_Some (compiled (GitHubRepoPrefix opts) p)) ->
  length calls <= fuel ->
  exists m',
    fetchRepositorys fuel api opts org st = FetchDone (set_repos m' st) calls /\
    (forall p, p ∈ provider st ->
       m' !! p = (fun r => matching r allRepos) <$> compiled (GitHubRepoPrefix opts) p) /\
    (forall q, q ∉ provider st -> m' !! q = repos st !! q).
Proof.
  intros HL Hc Hfuel. unfold fetchRepositorys.
  rewrite (listAllPages_Listing _ _ _ _ _ _ _ HL fuel [] [] eq_refl).
  destruct (Nat.leb_spec (length calls) fuel) as [_|?]; [|lia]. cbn [app].
  destruct (fill_buckets_matching (GitHubRepoPrefix opts) allRepos (provider st) Hc (repos st))
    as (m' & -> & Hin & Hout).
  by exists m'.
Qed.


Lemma Listing_calls_nonempty (api : GitHubAPI) (org : string) n page calls listed ok :
  Listing api org n page calls listed ok -> calls <> [].
Proof. by destruct 1. Qed.

Lemma Listing_error_last (api : GitHubAPI) (org : string) n page calls listed :
  Listing api org n page calls listed false ->
  api (n + length calls - 1)%nat org (List.last calls 0%nat) = ListErr.
Proof.
  remember false as ok eqn:Hok.
  induction 1 as [n page Hapi|n page rs Hapi|n page rs next calls listed ok Hapi Hnext HL IH].
  - cbn. by replace (n + 1 - 1)%nat with n by lia.
  - discriminate.
  - specialize (IH Hok). apply Listing_calls_nonempty in HL.
    destruct calls as [|c calls]; [done|].
    change (List.last (page :: c :: calls) 0%nat) with (List.last (c :: calls) 0%nat).
    cbn [length] in *. by replace (n + S (S (length calls)) - 1)%nat
      with (S n + S (length calls) - 1)%nat by lia.
Qed.

(** C7: when a call of the listing fails, the run ends there with the fatal
    exit: the failed call is the last one made (every page of the run was
    asked for once, none again), and the state at the exit is the state
    before the run, so the bucket map is the one the run found. *)
Theorem fetchRepositorys_error_is_fatal (api : GitHubAPI) (opts : OptionsT) (org : string)
    (st : State) (calls : list nat) (listed : list Repository) (fuel : nat) :
  Listing api org 0 0 calls listed false ->
  fetchRepositorys fuel api opts org st =
    (if (length calls <=? fuel)%nat then FetchFatal st calls else FetchOutOfFuel) /\
  api (length calls - 1)%nat org (List.last calls 0%nat) = ListErr /\
  forall fuel' st' calls',
    fetchRepositorys fuel' api opts org st <> FetchDone st' calls'.
Proof.
  intros HL.
  assert (Hrun : forall fuel, fetchRepositorys fuel api opts org st =
            if (length calls <=? fuel)%nat then FetchFatal st calls else FetchOutOfFuel).
  { intros f. unfold fetchRepositorys.
    rewrite (listAllPages_Listing _ _ _ _ _ _ _ HL f [] [] eq_refl).
    by destruct (length calls <=? f)%nat. }
  split; [apply Hrun|]. split.
  - apply (Listing_error_last _ _ _ _ _ _ HL).
  - intros fuel' st' calls'. rewrite Hrun. by destruct (length calls <=? fuel')%nat.
Qed.

(** X9: for a prefix and provider keys without pattern characters, the
    buckets told without the matcher: a repository is in the bucket of a
    key exactly when it was listed, is not archived, and its name begins
    with the prefix followed by the key, with no line feed after them.
    The match is anchored at the beginning and tells upper from lower
    case. *)
Corollary fetchRepositorys_buckets_literal (api : GitHubAPI) (opts : OptionsT)
    (org : string) (st : State) (calls : list nat) (allRepos : list Repository)
    (fuel : nat) :
  Listing api org 0 0 calls allRepos true ->
  literal (GitHubRepoPrefix opts) = true ->
  (forall p, p ∈ provider st -> literal p = true) ->
  length calls <= fuel ->
  exists st',
    fetchRepositorys fuel api opts org st = FetchDone st' calls /\
    forall p repo, p ∈ provider st ->
      repo ∈ bucket (repos st') p <->
      repo ∈ allRepos /\ Archived repo = false /\
      exists rest, Name repo = GitHubRepoPrefix opts +:+ p +:+ rest /\
                   no_newline rest = true.
Proof.
  intros HL Hprefix Hkeys Hfuel.
  destruct (fetchRepositorys_done api opts org st calls allRepos fuel HL)
    as (m' & Hrun & Hin & _); [|done|].
  { intros p Hp. rewrite compiled_literal by auto. by eexists. }
  exists (set_repos m' st). split; [done|]. intros p repo Hp.
  cbn [repos set_repos]. unfold bucket.
  rewrite (Hin p Hp), compiled_literal by auto. cbn [fmap option_fmap option_map].
  unfold default, id, matching.
  rewrite <- bucket_pattern_matches, list_elem_of_In, filter_In, <- list_elem_of_In.
  rewrite andb_true_iff, negb_true_iff. tauto.
Qed.

(** A repository that the patterns of two keys match is in both buckets. *)
Example overlapping_buckets :
  match fetchRepositorys 2 sample_api (default_Options "dcos-terraform")
          "dcos-terraform" overlapping_State with
  | FetchDone st' _ =>
      bucket (repos st') "aws" = [sample_repo] /\
      bucket (repos st') "aws-c" = [sample_repo]
  | _ => False
  end.
Proof. vm_compute. split; reflexivity. Qed.

(** ** The prober *)

Lemma branch_result_index (http_get : Jenkins) (bs : list string) (repoName : string)
    (i : nat) (r : CiResult) :
  branch_result http_get bs repoName i = Some r ->
  BranchesIndex r = i /\ (i < length bs)%nat /\
  exists b, bs !! i = Some b /\ BranchHtmlDoubleEncoded r = QueryEscape (QueryEscape b).
Proof.
  unfold branch_result. destruct (bs !! i) as [b|] eqn:Hb; [|done].
  destruct (http_get _) as [|code body]; [done|]. intros [= <-].
  split; [done|]. split; [by eapply lookup_lt_Some|]. by exists b.
Qed.

Lemma prober_init_inv (http_get : Jenkins) (bs : list string) (repoName : string) :
  prober_inv http_get bs repoName (prober_init bs).
Proof.
  split; cbn.
  - apply length_replicate.
  - constructor.
  - intros r Hr. by apply elem_of_nil in Hr.
  - intros i r Hi. apply lookup_replicate in Hi as [? _]. done.
  - intros i Hi. apply lookup_replicate in Hi as [? _]. done.
  - done.
  - done.
  - intros u Hu. by apply elem_of_nil in Hu.
Qed.

Lemma prober_step_inv (http_get : Jenkins) (bs : list string) (repoName : string)
    (t : tid) (s : PState) :
  prober_inv http_get bs repoName s ->
  prober_inv http_get bs repoName (prober_step http_get bs repoName t s).
Proof.
  intros Hinv. pose proof Hinv as [Hgos Hnd Hbuf Hfet Hsend Hmain Hret Hreq].
  unfold prober_step. destruct (exited s); [done|].
  destruct t as [|i].
  - (* the caller *)
    destruct (mainpc s) eqn:Hpc; try exact Hinv.
    split; cbn; try done.
    + intros _. apply Hmain. congruence.
    + intros res [= <-]. split; [apply Hmain; congruence|]. split; [done|].
      intros r Hr. destruct (Hbuf r Hr) as (? & ? & _). done.
  - destruct (gos s !! i) as [g|] eqn:Hg; [|done].
    assert (Hi : (i < length (gos s))%nat) by by eapply lookup_lt_Some.
    destruct g as [|cires| | |].
    + (* the request *)
      destruct (bs !! i) as [b|] eqn:Hb; [|done].
      set (url := jenkins_text_url repoName (QueryEscape (QueryEscape b))).
      assert (Hreq' : forall u, u ∈ requests s ++ [url] ->
                exists i b, bs !! i = Some b /\
                  u = jenkins_text_url repoName (QueryEscape (QueryEscape b))).
      { intros u Hu. apply elem_of_app in Hu as [Hu|Hu]; [by apply Hreq|].
        apply list_elem_of_singleton in Hu. subst u. by exists i, b. }
      destruct (http_get url) as [|code body] eqn:Hget.
      * split; cbn; try done.
        -- intros r Hr. destruct (Hbuf r Hr) as (? & ? & ?).
           split; [done|]. split; [|done]. apply elem_of_app. by left.
        -- intros j r Hj. destruct (Hfet j r Hj). split; [done|].
           apply elem_of_app. by left.
        -- intros res Hres. destruct (Hret res Hres) as (? & ? & Hall).
           split; [done|]. split; [done|]. intros r Hr. destruct (Hall r Hr).
           split; [done|]. apply elem_of_app. by left.
      * split; cbn.
        -- by rewrite length_insert.
        -- done.
        -- intros r Hr. destruct (Hbuf r Hr) as (? & ? & Happ).
           split; [done|]. split; [apply elem_of_app; by left|].
           intros g Hg'. destruct (decide (i = BranchesIndex r)) as [->|Hne].
           ++ specialize (Happ _ Hg). done.
           ++ rewrite list_lookup_insert_ne in Hg' by done. by apply Happ.
        -- intros j r Hj. destruct (decide (i = j)) as [->|Hne].
           ++ rewrite list_lookup_insert_eq in Hj by done. injection Hj as <-.
              split; [|apply elem_of_app; right; apply list_elem_of_singleton; done].
              unfold branch_result. rewrite Hb. fold url. by rewrite Hget.
           ++ rewrite list_lookup_insert_ne in Hj by done.
              destruct (Hfet j r Hj). split; [done|]. apply elem_of_app. by left.
        -- intros j Hj. destruct (decide (i = j)) as [->|Hne].
           ++ rewrite list_lookup_insert_eq in Hj by done. done.
           ++ rewrite list_lookup_insert_ne in Hj by done. by eapply Hsend.
        -- done.
        -- intros res Hres. destruct (Hret res Hres) as (? & ? & Hall).
           split; [done|]. split; [done|]. intros r Hr. destruct (Hall r Hr).
           split; [done|]. apply elem_of_app. by left.
        -- done.
    + (* the append *)
      destruct (Hfet i cires Hg) as [Hres Hurl].
      destruct (branch_result_index _ _ _ _ _ Hres) as (Hidx & _ & _).
      assert (Hfresh : forall r, r ∈ returnCiRes s -> BranchesIndex r <> i).
      { intros r Hr Heq. destruct (Hbuf r Hr) as (_ & _ & Happ).
        rewrite Heq in Happ. by specialize (Happ _ Hg). }
      split; cbn.
      * by rewrite length_insert.
      * rewrite map_app. cbn. rewrite Hidx. apply NoDup_app. split; [done|].
        split; [|apply NoDup_singleton].
        intros j Hj Hj'. apply list_elem_of_singleton in Hj'. subst j.
        apply list_elem_of_fmap in Hj as (r & Hr1 & Hr). by eapply Hfresh.
      * intros r Hr. apply elem_of_app in Hr as [Hr|Hr].
        -- destruct (Hbuf r Hr) as (? & ? & Happ). split; [done|]. split; [done|].
           intros g Hg'. rewrite list_lookup_insert_ne in Hg'; [by apply Happ|].
           intros Heq. by eapply Hfresh.
        -- apply list_elem_of_singleton in Hr. subst r. rewrite Hidx.
           split; [done|]. split; [done|]. intros g Hg'.
           rewrite list_lookup_insert_eq in Hg' by done. by injection Hg' as <-.
      * intros j r Hj. destruct (decide (i = j)) as [->|Hne].
        -- rewrite list_lookup_insert_eq in Hj by done. done.
        -- rewrite list_lookup_insert_ne in Hj by done. by apply Hfet.
      * intros j Hj. rewrite length_app. destruct (decide (i = j)) as [->|Hne].
        -- rewrite list_lookup_insert_eq in Hj by done. done.
        -- rewrite list_lookup_insert_ne in Hj by done. specialize (Hsend j Hj). lia.
      * intros Hm. rewrite length_app. specialize (Hmain Hm). lia.
      * done.
      * done.
    + (* the comparison with sliceSize *)
      split; cbn; try done.
      * by rewrite length_insert.
      * intros r Hr. destruct (Hbuf r Hr) as (? & ? & Happ). split; [done|]. split; [done|].
        intros g Hg'. destruct (decide (i = BranchesIndex r)) as [->|Hne].
        -- rewrite list_lookup_insert_eq in Hg' by done. injection Hg' as <-.
           by destruct (_ =? _)%nat.
        -- rewrite list_lookup_insert_ne in Hg' by done. by apply Happ.
      * intros j r Hj. destruct (decide (i = j)) as [->|Hne].
        -- rewrite list_lookup_insert_eq in Hj by done.
           by destruct (_ =? _)%nat.
        -- rewrite list_lookup_insert_ne in Hj by done. by apply Hfet.
      * intros j Hj. destruct (decide (i = j)) as [->|Hne].
        -- rewrite list_lookup_insert_eq in Hj by done.
           destruct (Nat.eqb_spec (length (returnCiRes s)) (length bs)); [lia|done].
        -- rewrite list_lookup_insert_ne in Hj by done. by eapply Hsend.
    + (* the send on done *)
      destruct (mainpc s) eqn:Hpc; try exact Hinv.
      split; cbn; try done.
      * by rewrite length_insert.
      * intros r Hr. destruct (Hbuf r Hr) as (? & ? & Happ). split; [done|]. split; [done|].
        intros g Hg'. destruct (decide (i = BranchesIndex r)) as [->|Hne].
        -- rewrite list_lookup_insert_eq in Hg' by done. by injection Hg' as <-.
        -- rewrite list_lookup_insert_ne in Hg' by done. by apply Happ.
      * intros j r Hj. destruct (decide (i = j)) as [->|Hne].
        -- rewrite list_lookup_insert_eq in Hj by done. done.
        -- rewrite list_lookup_insert_ne in Hj by done. by apply Hfet.
      * intros j Hj. destruct (decide (i = j)) as [->|Hne].
        -- rewrite list_lookup_insert_eq in Hj by done. done.
        -- rewrite list_lookup_insert_ne in Hj by done. by eapply Hsend.
      * intros _. by eapply Hsend.
    + done.
Qed.

Lemma prober_run_inv (http_get : Jenkins) (bs : list string) (repoName : string)
    (sched : list tid) (s : PState) :
  prober_inv http_get bs repoName s ->
  prober_inv http_get bs repoName (prober_run http_get bs repoName sched s).
Proof.
  revert s. induction sched as [|t sched IH]; intros s Hs; [done|].
  cbn. apply IH. by apply prober_step_inv.
Qed.

Lemma results_of_indices (http_get : Jenkins) (bs : list string) (repoName : string)
    (res : list CiResult) :
  (forall r, r ∈ res -> branch_result http_get bs repoName (BranchesIndex r) = Some r) ->
  results_of http_get bs repoName (map BranchesIndex res) = res.
Proof.
  induction res as [|r res IH]; intros Hall; [done|].
  unfold results_of in *. cbn. rewrite (Hall r) by apply list_elem_of_here. cbn.
  f_equal. apply IH. intros r' Hr'. apply Hall. by apply list_elem_of_further.
Qed.

(** What a returned slice is: one result per branch, in some order. *)
Lemma prober_returned_permutation (http_get : Jenkins) (bs : list string)
    (repoName : string) (sched : list tid) (res : list CiResult) :
  getJenkinsBuildStatusBadge http_get bs repoName sched = Returned res ->
  Permutation (map BranchesIndex res) (seq 0 (length bs)) /\
  res = results_of http_get bs repoName (map BranchesIndex res).
Proof.
  unfold getJenkinsBuildStatusBadge, prober_outcome.
  pose proof (prober_run_inv http_get bs repoName sched _
                (prober_init_inv http_get bs repoName)) as Hinv.
  destruct (exited _); [done|].
  destruct (mainpc _) as [| |res'] eqn:Hpc; try done. intros [= ->].
  destruct (inv_returned _ _ _ _ Hinv res Hpc) as (Hlen & Hnd & Hall).
  split.
  - apply submseteq_length_Permutation.
    + apply NoDup_submseteq; [done|]. intros i Hi.
      apply list_elem_of_fmap in Hi as (r & -> & Hr).
      destruct (Hall r Hr) as [Hres _].
      apply branch_result_index in Hres as (_ & Hlt & _).
      apply elem_of_seq. lia.
    + by rewrite length_seq, length_map.
  - symmetry. apply results_of_indices. intros r Hr. by destruct (Hall r Hr).
Qed.

(** ** The stable sort *)

Lemma insert_stable_Permutation {A : Type} (less : A -> A -> bool) (x : A) (l : list A) :
  Permutation (insert_stable less x l) (x :: l).
Proof.
  induction l as [|y l IH]; [done|]. cbn. destruct (less y x); [|done].
  rewrite IH. apply perm_swap.
Qed.

Lemma SliceStable_Permutation {A : Type} (less : A -> A -> bool) (l : list A) :
  Permutation (SliceStable less l) l.
Proof.
  induction l as [|x l IH]; [done|]. cbn.
  rewrite insert_stable_Permutation. by constructor.
Qed.

Lemma insert_stable_map {A B : Type} (f : A -> B) (lessA : A -> A -> bool)
    (lessB : B -> B -> bool) (x : A) (l : list A) :
  (forall a b, lessA a b = lessB (f a) (f b)) ->
  map f (insert_stable lessA x l) = insert_stable lessB (f x) (map f l).
Proof.
  intros Hless. induction l as [|y l IH]; [done|]. cbn. rewrite Hless.
  destruct (lessB (f y) (f x)); cbn; by rewrite ?IH.
Qed.

Lemma SliceStable_map {A B : Type} (f : A -> B) (lessA : A -> A -> bool)
    (lessB : B -> B -> bool) (l : list A) :
  (forall a b, lessA a b = lessB (f a) (f b)) ->
  map f (SliceStable lessA l) = SliceStable lessB (map f l).
Proof.
  intros Hless. induction l as [|x l IH]; [done|]. cbn.
  by rewrite (insert_stable_map f lessA lessB), IH.
Qed.

Lemma insert_stable_sorted (x : nat) (l : list nat) :
  StronglySorted le l -> StronglySorted le (insert_stable Nat.ltb x l).
Proof.
  induction 1 as [|y l Hl IH Hy]; cbn [insert_stable]; [repeat constructor|].
  destruct (Nat.ltb_spec y x) as [Hlt|Hge].
  - constructor; [done|].
    apply Forall_forall. intros z Hz.
    rewrite insert_stable_Permutation in Hz.
    apply elem_of_cons in Hz as [->|Hz]; [lia|].
    rewrite Forall_forall in Hy. by apply Hy.
  - constructor; [by constructor|].
    constructor; [done|]. eapply Forall_impl; [exact Hy|]. intros z Hz. cbn in *. lia.
Qed.

Lemma SliceStable_sorted (l : list nat) : StronglySorted le (SliceStable Nat.ltb l).
Proof.
  induction l as [|x l IH]; cbn; [constructor|]. by apply insert_stable_sorted.
Qed.

Lemma seq_sorted (j n : nat) : StronglySorted le (seq j n).
Proof.
  revert j. induction n as [|n IH]; intros j; cbn; constructor; [apply IH|].
  apply Forall_forall. intros z Hz. apply elem_of_seq in Hz. lia.
Qed.

(** Sorting a permutation of the indices gives the indices in order. *)
Lemma SliceStable_indices (order : list nat) (n : nat) :
  Permutation order (seq 0 n) -> SliceStable Nat.ltb order = seq 0 n.
Proof.
  intros Hp. apply (StronglySorted_unique le).
  - apply SliceStable_sorted.
  - apply seq_sorted.
  - by rewrite SliceStable_Permutation.
Qed.

(** The sort of [markdownContent] puts any returned slice in the order of
    the branch list. *)
Lemma sorted_badges_in_order (http_get : Jenkins) (bs : list string)
    (repoName : string) (sched : list tid) (res : list CiResult) :
  getJenkinsBuildStatusBadge http_get bs repoName sched = Returned res ->
  SliceStable less_BranchesIndex res = results_in_order http_get bs repoName.
Proof.
  intros Hret. destruct (prober_returned_permutation _ _ _ _ _ Hret) as [Hperm Hres].
  assert (Hall : forall r, r ∈ SliceStable less_BranchesIndex res ->
            branch_result http_get bs repoName (BranchesIndex r) = Some r).
  { intros r Hr. rewrite SliceStable_Permutation in Hr.
    rewrite Hres in Hr. unfold results_of in Hr.
    apply list_elem_of_omap in Hr as (i & _ & Hi).
    by destruct (branch_result_index _ _ _ _ _ Hi) as (-> & _). }
  rewrite <- (results_of_indices _ _ _ _ Hall).
  rewrite (SliceStable_map BranchesIndex less_BranchesIndex Nat.ltb) by done.
  by rewrite (SliceStable_indices _ _ Hperm).
Qed.

(** ** Schedules that run the goroutines one after the other *)

Lemma prober_run_app (http_get : Jenkins) (bs : list string) (repoName : string)
    (sched1 sched2 : list tid) (s : PState) :
  prober_run http_get bs repoName (sched1 ++ sched2) s =
  prober_run http_get bs repoName sched2 (prober_run http_get bs repoName sched1 s).
Proof. apply fold_left_app. Qed.

(** The four actions of one goroutine, run without interruption. *)
Lemma goroutine_runs (http_get : Jenkins) (bs : list string) (repoName : string)
    (i : nat) (r : CiResult) (s : PState) :
  exited s = false ->
  mainpc s = MWaiting ->
  gos s !! i = Some GStart ->
  branch_result http_get bs repoName i = Some r ->
  prober_run http_get bs repoName [Go i; Go i; Go i; Go i] s =
    {| gos := <[i := GDone]> (gos s);
       returnCiRes := returnCiRes s ++ [r];
       mainpc := if (length (returnCiRes s ++ [r]) =? length bs)%nat
                 then MReceived else MWaiting;
       exited := false;
       requests := requests s ++ [jenkins_text_url repoName (BranchHtmlDoubleEncoded r)] |}.
Proof.
  intros Hex Hpc Hg Hres.
  assert (Hi : (i < length (gos s))%nat) by by eapply lookup_lt_Some.
  unfold branch_result in Hres. destruct (bs !! i) as [b|] eqn:Hb; [|done].
  destruct (http_get _) as [|code body] eqn:Hget; [done|]. injection Hres as <-.
  cbn [BranchHtmlDoubleEncoded].
  unfold prober_run. cbn [fold_left].
  unfold prober_step at 4. rewrite Hex, Hg, Hb, Hget.
  unfold prober_step at 3. cbn [exited gos returnCiRes mainpc requests].
  rewrite list_lookup_insert_eq by done.
  unfold prober_step at 2. cbn [exited gos returnCiRes mainpc requests].
  rewrite list_insert_insert_eq, list_lookup_insert_eq by done.
  unfold prober_step. cbn [exited gos returnCiRes mainpc requests].
  rewrite list_insert_insert_eq.
  destruct (_ =? _)%nat.
  - rewrite list_lookup_insert_eq by done. rewrite Hpc.
    by rewrite list_insert_insert_eq.
  - rewrite list_lookup_insert_eq by done. by rewrite Hpc.
Qed.

Lemma results_of_cons (http_get : Jenkins) (bs : list string) (repoName : string)
    (i : nat) (r : CiResult) (order : list nat) :
  branch_result http_get bs repoName i = Some r ->
  results_of http_get bs repoName (i :: order) = r :: results_of http_get bs repoName order.
Proof. intros H. unfold results_of. cbn. by rewrite H. Qed.

Lemma goroutines_run (http_get : Jenkins) (bs : list string) (repoName : string)
    (order : list nat) :
  forall s : PState,
    NoDup order ->
    exited s = false ->
    mainpc s = MWaiting ->
    (forall i, i ∈ order ->
       gos s !! i = Some GStart /\ is_Some (branch_result http_get bs repoName i)) ->
    (length (returnCiRes s) + length order <= length bs)%nat ->
    let s' := prober_run http_get bs repoName
                (flat_map (fun i => [Go i; Go i; Go i; Go i]) order) s in
    exited s' = false /\
    returnCiRes s' = returnCiRes s ++ results_of http_get bs repoName order /\
    mainpc s' =
      match order with
      | [] => MWaiting
      | _ :: _ =>
          if (length (returnCiRes s) + length order =? length bs)%nat
          then MReceived else MWaiting
      end.
Proof.
  induction order as [|i order IH]; intros s Hnd Hex Hpc Hall Hlen s'.
  - subst s'. cbn. by rewrite app_nil_r.
  - apply NoDup_cons in Hnd as [Hi Hnd].
    destruct (Hall i) as [Hg [r Hr]]; [apply list_elem_of_here|].
    subst s'. cbn [flat_map].
    rewrite prober_run_app, (goroutine_runs _ _ _ _ _ _ Hex Hpc Hg Hr).
    rewrite (results_of_cons _ _ _ _ _ _ Hr).
    set (s1 := {| gos := _ |}).
    cbn [length] in Hlen.
    destruct order as [|j order].
    + cbn [flat_map prober_run fold_left]. subst s1. cbn [exited returnCiRes mainpc].
      split; [done|]. split; [done|].
      rewrite length_app. done.
    + destruct (IH s1) as (Hex' & Hbuf' & Hpc').
      * done.
      * done.
      * subst s1. cbn [mainpc]. rewrite length_app. cbn [length] in *.
        destruct (Nat.eqb_spec (length (returnCiRes s) + 1) (length bs)); [lia|done].
      * intros k Hk. subst s1. cbn [gos].
        destruct (Hall k) as [Hgk Hrk]; [by apply list_elem_of_further|].
        split; [|done]. rewrite list_lookup_insert_ne; [done|].
        intros ->. done.
      * subst s1. cbn [returnCiRes]. rewrite length_app. cbn [length] in *. lia.
      * split; [done|]. split.
        -- rewrite Hbuf'. subst s1. cbn [returnCiRes]. by rewrite <- (assoc_L (++)).
        -- rewrite Hpc'. subst s1. cbn [returnCiRes]. rewrite length_app. cbn [length].
           by replace (length (returnCiRes s) + 1 + S (length order))%nat
             with (length (returnCiRes s) + S (S (length order)))%nat by lia.
Qed.


(** ** No schedule leaves the caller waiting *)





(** A turn of a goroutine that has still to act is an action of it. *)
Lemma step_rank_lt (http_get : Jenkins) (bs : list string) (repoName : string)
    (s : PState) (i : nat) :
  exited s = false ->
  length (gos s) = length bs ->
  transport_ok http_get bs repoName ->
  exited (prober_step http_get bs repoName (Go i) s) = false /\
  (rank (prober_step http_get bs repoName (Go i) s) i <= pred (rank s i))%nat.
Proof.
  intros Hex Hlen Hok. unfold prober_step. rewrite Hex.
  destruct (gos s !! i) as [g|] eqn:Hg; [|by unfold rank; rewrite Hg].
  assert (Hi : (i < length (gos s))%nat) by by eapply lookup_lt_Some.
  unfold rank. destruct g as [|cires| | |].
  - destruct (Hok i) as [r Hr]; [lia|]. unfold branch_result in Hr.
    destruct (bs !! i); [|done]. destruct (http_get _); [done|]. cbn.
    rewrite list_lookup_insert_eq, Hg by done. split; [done|lia].
  - cbn. rewrite list_lookup_insert_eq, Hg by done. split; [done|lia].
  - cbn. rewrite list_lookup_insert_eq, Hg by done. split; [done|].
    destruct (_ =? _)%nat; [destruct (mainpc s)|]; cbn; lia.
  - destruct (mainpc s) eqn:Hpc; cbn; rewrite ?Hg, ?Hpc; try (split; [done|lia]).
    rewrite list_lookup_insert_eq by done. split; [done|lia].
  - by rewrite Hg.
Qed.






(** Without a transport error the process does not exit. *)
Lemma run_not_exited (http_get : Jenkins) (bs : list string) (repoName : string)
    (sched : list tid) :
  transport_ok http_get bs repoName ->
  forall s : PState,
    prober_inv http_get bs repoName s ->
    exited s = false ->
    exited (prober_run http_get bs repoName sched s) = false.
Proof.
  intros Hok. induction sched as [|t sched IH]; intros s Hinv Hex; [done|].
  cbn [prober_run fold_left]. apply IH; [by apply prober_step_inv|].
  destruct t as [|i].
  - unfold prober_step. rewrite Hex. by destruct (mainpc s).
  - by apply step_rank_lt; [|apply (inv_gos _ _ _ _ Hinv)|].
Qed.


(** ** The renderer *)

Lemma prober_empty_pending (http_get : Jenkins) (repoName : string) (sched : list tid) :
  getJenkinsBuildStatusBadge http_get [] repoName sched = Pending.
Proof.
  unfold getJenkinsBuildStatusBadge.
  assert (H : prober_run http_get [] repoName sched (prober_init []) = prober_init []).
  { induction sched as [|t sched IH]; [done|]. cbn [prober_run fold_left].
    replace (prober_step http_get [] repoName t (prober_init [])) with (prober_init []);
      [exact IH|]. by destruct t. }
  by rewrite H.
Qed.

Lemma results_in_order_length (http_get : Jenkins) (bs : list string) (repoName : string)
    (sched : list tid) (res : list CiResult) :
  getJenkinsBuildStatusBadge http_get bs repoName sched = Returned res ->
  length (results_in_order http_get bs repoName) = length bs /\ bs <> [].
Proof.
  intros Hret. split.
  - rewrite <- (sorted_badges_in_order _ _ _ _ _ Hret), SliceStable_Permutation.
    destruct (prober_returned_permutation _ _ _ _ _ Hret) as [Hperm _].
    apply Permutation_length in Hperm. by rewrite length_map, length_seq in Hperm.
  - intros ->. by rewrite prober_empty_pending in Hret.
Qed.

Lemma render_badges_join (repoName : string) (lastBadge : Z) (badges : list CiResult) :
  forall (i : nat) (md : string),
    badges <> [] ->
    lastBadge = (Z.of_nat (i + length badges) - 1)%Z ->
    render_badges repoName lastBadge i badges (md +:+ status_badge_icon_prefix)
    = md +:+ join " | " (map (badge_cell repoName) badges) +:+ " ".
Proof.
  induction badges as [|badge badges IH]; intros i md Hne Hlast; [done|].
  destruct badges as [|badge' badges].
  - cbn [render_badges map join length] in *.
    destruct (Z.eqb_spec (Z.of_nat i) lastBadge) as [_|Hn]; [|lia].
    unfold badge_cell. rewrite !string_app_assoc. reflexivity.
  - cbn [render_badges length] in *.
    destruct (Z.eqb_spec (Z.of_nat i) lastBadge) as [He|_]; [lia|].
    change (map (badge_cell repoName) (badge :: badge' :: badges))
      with (badge_cell repoName badge :: map (badge_cell repoName) (badge' :: badges)).
    change (join " | " (badge_cell repoName badge :: map (badge_cell repoName) (badge' :: badges)))
      with (badge_cell repoName badge +:+ " | "
            +:+ join " | " (map (badge_cell repoName) (badge' :: badges))).
    specialize (IH (S i) (md +:+ badge_cell repoName badge +:+ " | ")).
    rewrite !string_app_assoc in IH. rewrite !string_app_assoc.
    rewrite <- IH; [|done|cbn [length]; lia].
    f_equal. unfold badge_cell. rewrite !string_app_assoc. reflexivity.
Qed.

(** One row as the loop writes it, given the sorted badges. *)
Lemma render_row (repoName : string) (badges : list CiResult) (md : string) :
  badges <> [] ->
  render_badges repoName (Z.of_nat (length badges) - 1) 0 badges
    (md +:+ ("| " +:+ repoName +:+ " | " +:+ status_badge_icon_prefix))
  +:+ ("|" +:+ nl)
  = md +:+ table_row repoName badges.
Proof.
  intros Hne.
  replace (md +:+ ("| " +:+ repoName +:+ " | " +:+ status_badge_icon_prefix))
    with ((md +:+ "| " +:+ repoName +:+ " | ") +:+ status_badge_icon_prefix)
    by (rewrite !string_app_assoc; reflexivity).
  rewrite (render_badges_join repoName _ badges 0 _ Hne) by (cbn; lia).
  unfold table_row. rewrite !string_app_assoc. reflexivity.
Qed.


(** When the prober returns at every call, the rows are written. *)
Lemma render_rows_total (http_get : Jenkins) (bs : list string)
    (scheds : nat -> list tid) (bucket_repos : list Repository) :
  (forall k repo, repo ∈ bucket_repos ->
     exists res,
       getJenkinsBuildStatusBadge http_get bs (Name repo) (scheds k) = Returned res) ->
  forall (k : nat) (md : string),
    render_rows http_get bs scheds bucket_repos k md
    = Returned (md +:+ table_rows http_get bs bucket_repos, (k + length bucket_repos)%nat).
Proof.
  induction bucket_repos as [|repo rest IH]; intros Hret k md.
  - unfold table_rows. cbn. by rewrite string_app_nil_r, Nat.add_0_r.
  - cbn [render_rows].
    destruct (Hret k repo (list_elem_of_here _ _)) as [res Hres].
    rewrite Hres. rewrite (sorted_badges_in_order _ _ _ _ _ Hres).
    destruct (results_in_order_length _ _ _ _ _ Hres) as [Hlen Hbs].
    rewrite render_row by (intros Hnil; rewrite Hnil in Hlen; by destruct bs).
    rewrite IH by (intros k' r Hr; by apply Hret, list_elem_of_further).
    unfold table_rows. cbn [map concat_strings length].
    rewrite string_app_assoc. do 2 f_equal. lia.
Qed.


Lemma render_sections_total (http_get : Jenkins) (bs : list string)
    (scheds : nat -> list tid) (m : gmap string (list Repository)) (keys : list string) :
  (forall k p repo, p ∈ keys -> repo ∈ bucket m p ->
     exists res,
       getJenkinsBuildStatusBadge http_get bs (Name repo) (scheds k) = Returned res) ->
  forall (k : nat) (md : string),
    render_sections http_get bs scheds m keys k md
    = Returned (md +:+ concat_strings (map (section http_get bs m) keys),
                (k + probes m keys)%nat).
Proof.
  induction keys as [|p keys IH]; intros Hret k md.
  - cbn. by rewrite string_app_nil_r, Nat.add_0_r.
  - cbn [render_sections].
    rewrite render_rows_total
      by (intros k' repo Hr; by apply (Hret k' p), Hr; apply list_elem_of_here).
    rewrite IH by (intros k' q repo Hq; by apply Hret, list_elem_of_further).
    change (probes m (p :: keys)) with (length (bucket m p) + probes m keys)%nat.
    cbn [map concat_strings].
    unfold section, section_head. rewrite !string_app_assoc.
    do 2 f_equal. lia.
Qed.





(** A run that returns has seen the prober return for every repository. *)
Lemma render_rows_probed (http_get : Jenkins) (bs : list string)
    (scheds : nat -> list tid) (bucket_repos : list Repository) :
  forall (k : nat) (md md' : string) (k' : nat),
    render_rows http_get bs scheds bucket_repos k md = Returned (md', k') ->
    forall repo, repo ∈ bucket_repos ->
      exists sched res,
        getJenkinsBuildStatusBadge http_get bs (Name repo) sched = Returned res.
Proof.
  induction bucket_repos as [|repo' rest IH]; intros k md md' k' Hret repo Hrepo.
  - by apply elem_of_nil in Hrepo.
  - cbn [render_rows] in Hret.
    destruct (getJenkinsBuildStatusBadge _ _ (Name repo') _) as [res| |] eqn:Hres;
      try done.
    apply elem_of_cons in Hrepo as [->|Hrepo]; [by eauto|].
    by eapply IH.
Qed.

Lemma render_sections_probed (http_get : Jenkins) (bs : list string)
    (scheds : nat -> list tid) (m : gmap string (list Repository)) (keys : list string) :
  forall (k : nat) (md md' : string) (k' : nat),
    render_sections http_get bs scheds m keys k md = Returned (md', k') ->
    forall p repo, p ∈ keys -> repo ∈ bucket m p ->
      exists sched res,
        getJenkinsBuildStatusBadge http_get bs (Name repo) sched = Returned res.
Proof.
  induction keys as [|q keys IH]; intros k md md' k' Hret p repo Hp Hrepo.
  - by apply elem_of_nil in Hp.
  - cbn [render_sections] in Hret.
    destruct (render_rows _ _ _ _ _ _) as [[md1 k1]| |] eqn:Hrows; try done.
    apply elem_of_cons in Hp as [->|Hp]; [|by eapply IH].
    by eapply render_rows_probed.
Qed.


(** ** Lines of the document *)











(** ** The handlers *)

(** C9: whatever the buckets and the cache hold, and whatever the method of
    the request, the path [/health] is answered by the status 200 and the
    body "ok". *)
Theorem livenessHandler_always_ok (render_rest : HtmlRest)
    (files : Route -> Request -> ResponseWriter) (favicons : list string)
    (st : State) (method : string) :
  serve render_rest files favicons st {| Method := method; Path := "/health" |}
  = {| header := []; wroteHeader := Some 200%Z; written := "ok" |}.
Proof.
  unfold serve. cbn [Path].
  change (route favicons "/health") with RouteHealth. cbv iota.
  unfold livenessHandler, Write, WriteHeader. reflexivity.
Qed.





(** ** The sample run *)

(** The sample API lists its three repositories on two pages. *)
Lemma sample_listing (org : string) :
  Listing sample_api org 0 0 [0; 2]%nat sample_repos true.
Proof.
  apply (Listing_next sample_api org 0 0 (firstn 2 sample_repos) 2 [2%nat]
           (skipn 2 sample_repos) true); [reflexivity|lia|].
  by apply Listing_last.
Qed.

(** The failing API answers the first page and fails on the second. *)
Lemma failing_listing (org : string) :
  Listing failing_api org 0 0 [0; 2]%nat (firstn 2 sample_repos) false.
Proof.
  apply (Listing_next failing_api org 0 0 (firstn 2 sample_repos) 2 [2%nat] [] false);
    [reflexivity|lia|].
  by apply Listing_error.
Qed.

(** The sample Jenkins answers every request. *)
Lemma sample_transport_ok (bs : list string) (repoName : string) :
  transport_ok sample_jenkins bs repoName.
Proof.
  intros i Hi. unfold branch_result.
  destruct (lookup_lt_is_Some_2 bs i Hi) as [b ->].
  unfold sample_jenkins. repeat destruct (String.eqb _ _); by eexists.
Qed.


(** The fetcher on the failing API: two calls, the fatal exit, the state
    untouched. *)
Lemma fetchRepositorys_error_is_fatal_witness :
  fetchRepositorys 5 failing_api (default_Options "dcos-terraform") "dcos-terraform"
    sample_State = FetchFatal sample_State [0; 2]%nat.
Proof.
  apply (fetchRepositorys_error_is_fatal failing_api (default_Options "dcos-terraform")
           "dcos-terraform" sample_State [0; 2]%nat (firstn 2 sample_repos) 5
           (failing_listing "dcos-terraform")).
Defined.





(** The scenario of the spec: "Success" for support/0.2.x and "Failed" for
    support/0.1.x give the passing badge in the first cell and the failing
    badge in the second, also when support/0.1.x completes first. *)
Example scenario_row :
  render_rows sample_jenkins main_branches
    (fun _ => [Go 1; Go 1; Go 0; Go 1; Go 0; Go 0; Go 1; Go 0; Main]) [sample_repo]
    0 EmptyString
  = Returned
      ("| terraform-aws-cluster | "
       +:+ "[![Build Status](/static/images/1-build-passing.svg)]"
       +:+ "(https://jenkins-terraform.mesosphere.com/service/dcos-terraform-jenkins/job/dcos-terraform/job/terraform-aws-cluster/job/support%252F0.2.x/)"
       +:+ " | "
       +:+ "[![Build Status](/static/images/3-build-failing.svg)]"
       +:+ "(https://jenkins-terraform.mesosphere.com/service/dcos-terraform-jenkins/job/dcos-terraform/job/terraform-aws-cluster/job/support%252F0.1.x/)"
       +:+ " |" +:+ nl, 1%nat).
Proof. vm_compute. reflexivity. Qed.

(** X5: With an empty branch list no goroutine ever sends on [done]: the caller
    waits for ever. *)
Example prober_empty_never_returns (http_get : Jenkins) (repoName : string)
    (sched : list tid) :
  getJenkinsBuildStatusBadge http_get [] repoName sched = Pending.
Proof. apply prober_empty_pending. Qed.

(** The sample listing, fetched. *)
Example sample_fetch :
  fetchRepositorys 2 sample_api (default_Options "dcos-terraform") "dcos-terraform"
    sample_State = FetchDone sample_fetched [0; 2]%nat.
Proof. vm_compute. reflexivity. Qed.

(** The document of the sample run, line by line. *)
Example sample_document :
  document sample_jenkins main_branches (repos sample_fetched) ["aws"; "gcp"]
  = "# DC/OS Terraform modules" +:+ nl
    +:+ "---" +:+ nl
    +:+ "### Provider: **aws**" +:+ nl
    +:+ "| Repository | support/0.2.x | support/0.1.x |" +:+ nl
    +:+ "| --- | --- | --- |" +:+ nl
    +:+ "| terraform-aws-cluster | "
    +:+ "[![Build Status](/static/images/1-build-passing.svg)]"
    +:+ "(https://jenkins-terraform.mesosphere.com/service/dcos-terraform-jenkins/job/dcos-terraform/job/terraform-aws-cluster/job/support%252F0.2.x/)"
    +:+ " | "
    +:+ "[![Build Status](/static/images/3-build-failing.svg)]"
    +:+ "(https://jenkins-terraform.mesosphere.com/service/dcos-terraform-jenkins/job/dcos-terraform/job/terraform-aws-cluster/job/support%252F0.1.x/)"
    +:+ " |" +:+ nl
    +:+ "---" +:+ nl
    +:+ "### Provider: **gcp**" +:+ nl
    +:+ "| Repository | support/0.2.x | support/0.1.x |" +:+ nl
    +:+ "| --- | --- | --- |" +:+ nl
    +:+ "| terraform-gcp-base | "
    +:+ "[![Build Status](/static/images/0-build-notrun.svg)]"
    +:+ "(https://jenkins-terraform.mesosphere.com/service/dcos-terraform-jenkins/job/dcos-terraform/job/terraform-gcp-base/job/support%252F0.2.x/)"
    +:+ " | "
    +:+ "[![Build Status](/static/images/0-build-notrun.svg)]"
    +:+ "(https://jenkins-terraform.mesosphere.com/service/dcos-terraform-jenkins/job/dcos-terraform/job/terraform-gcp-base/job/support%252F0.1.x/)"
    +:+ " |" +:+ nl.
Proof. vm_compute. reflexivity. Qed.

(** ** The escaped branch name *)

Lemma all_bytes_impl (ok ok' : ascii -> bool) (s : string) :
  (forall c, ok c = true -> ok' c = true) ->
  all_bytes ok s = true -> all_bytes ok' s = true.
Proof.
  intros Himpl. induction s as [|c s IH]; [done|]. cbn [all_bytes].
  rewrite !andb_true_iff. intros [Hc Hs]. split; [by apply Himpl|by apply IH].
Qed.

Lemma upperhex_unreserved (n : N) : unreserved (upperhex n) = true.
Proof.
  unfold upperhex. generalize (N.to_nat n). clear n. intros k.
  do 16 (destruct k as [|k]; [reflexivity|]).
  reflexivity.
Qed.

(** An escaped string holds kept bytes, [%] and [+]; the [+] stand for the
    spaces of the string. *)
Lemma escape_bytes (s : string) :
  all_bytes (fun c => unreserved c || Ascii.eqb c "%"%char || Ascii.eqb c "+"%char)
    (escape s) = true.
Proof.
  induction s as [|c s IH]; [done|]. cbn [escape].
  destruct (shouldEscape c) eqn:Hesc.
  - destruct (Ascii.eqb c " "%char); cbn [all_bytes].
    + by rewrite IH.
    + by rewrite !upperhex_unreserved, IH.
  - cbn [all_bytes]. unfold unreserved at 1. by rewrite Hesc, IH.
Qed.

Lemma escape_no_space_bytes (s : string) :
  all_bytes (fun c => negb (Ascii.eqb c " "%char)) s = true ->
  all_bytes (fun c => unreserved c || Ascii.eqb c "%"%char) (escape s) = true.
Proof.
  induction s as [|c s IH]; [done|]. cbn [all_bytes escape].
  rewrite andb_true_iff. intros [Hc Hs]. apply negb_true_iff in Hc.
  destruct (shouldEscape c) eqn:Hesc.
  - rewrite Hc. cbn [all_bytes]. by rewrite !upperhex_unreserved, IH.
  - cbn [all_bytes]. unfold unreserved at 1. by rewrite Hesc, IH.
Qed.

(** X2: Escaping twice leaves letters, digits, the marks [-_.~] and [%]: no
    slash, no space, no [+], no byte that ends or splits a query. *)
Theorem double_escape_bytes (b : string) :
  all_bytes (fun c => unreserved c || Ascii.eqb c "%"%char)
    (QueryEscape (QueryEscape b)) = true.
Proof.
  unfold QueryEscape. apply escape_no_space_bytes.
  apply (all_bytes_impl
           (fun c => unreserved c || Ascii.eqb c "%"%char || Ascii.eqb c "+"%char));
    [|apply escape_bytes].
  intros c Hc. destruct (Ascii.eqb_spec c " "%char) as [->|]; [discriminate|done].
Qed.

(** X3: A name of kept bytes alone is its own escaped form, also twice. *)
Theorem double_escape_unreserved (b : string) :
  all_bytes unreserved b = true -> QueryEscape (QueryEscape b) = b.
Proof.
  intros Hb. assert (He : escape b = b).
  { induction b as [|c b IH]; [done|]. cbn [all_bytes escape] in *.
    apply andb_true_iff in Hb as [Hc Hb]. unfold unreserved in Hc.
    apply negb_true_iff in Hc. rewrite Hc. by rewrite IH. }
  unfold QueryEscape. by rewrite !He.
Qed.

Lemma unescape_escape_byte (c : ascii) (s : string) :
  unescape (escape (String c s)) = option_map (String c) (unescape (escape s)).
Proof. destruct c as [[] [] [] [] [] [] [] []]; reflexivity. Qed.

Lemma unescape_escape (s : string) : unescape (escape s) = Some s.
Proof.
  induction s as [|c s IH]; [done|]. by rewrite unescape_escape_byte, IH.
Qed.

Lemma escape_inj (s1 s2 : string) : escape s1 = escape s2 -> s1 = s2.
Proof.
  intros H. apply (f_equal unescape) in H. rewrite !unescape_escape in H.
  by injection H.
Qed.

(** X4: Two branches of different names are asked for under different URLs:
    the double escape confuses no two branch names. *)
Theorem probe_url_injective (repoName b1 b2 : string) :
  b1 <> b2 ->
  jenkins_text_url repoName (QueryEscape (QueryEscape b1))
  <> jenkins_text_url repoName (QueryEscape (QueryEscape b2)).
Proof.
  unfold jenkins_text_url, QueryEscape. intros Hne H. apply Hne.
  do 3 apply (inj (String.app _)) in H.
  by do 2 apply escape_inj in H.
Qed.

(** ** The badge and the body *)

(** X1: the badge is read off the body alone, byte for byte: the status of
    the answer plays no part; each of the four words, and nothing else,
    gives its badge, and every other body gives the badge of a build that
    did not run. *)
Theorem classify_by_body_alone (statusCode : Z) (body : string) :
  (forall statusCode', classify statusCode' body = classify statusCode body) /\
  (Result (classify statusCode body) = 1%Z <-> body = "Success") /\
  (Result (classify statusCode body) = 2%Z <-> body = "In progress") /\
  (Result (classify statusCode body) = 3%Z <-> body = "Failed") /\
  (Result (classify statusCode body) = 4%Z <-> body = "Aborted") /\
  (Result (classify statusCode body) = 0%Z <->
   body <> "Success" /\ body <> "In progress" /\ body <> "Failed" /\ body <> "Aborted").
Proof.
  split; [intros code'; by rewrite !classify_cases|].
  rewrite classify_cases.
  destruct (String.eqb_spec body "Success") as [->|H1];
    [repeat split; try done; by intros (? & ? & ? & ?)|].
  destruct (String.eqb_spec body "In progress") as [->|H2];
    [repeat split; try done; by intros (? & ? & ? & ?)|].
  destruct (String.eqb_spec body "Failed") as [->|H3];
    [repeat split; try done; by intros (? & ? & ? & ?)|].
  destruct (String.eqb_spec body "Aborted") as [->|H4];
    [repeat split; try done; by intros (? & ? & ? & ?)|].
  by repeat split.
Qed.

(** ** A request that fails *)

Lemma prober_run_cons (http_get : Jenkins) (bs : list string) (repoName : string)
    (t : tid) (sched : list tid) (s : PState) :
  prober_run http_get bs repoName (t :: sched) s =
  prober_run http_get bs repoName sched (prober_step http_get bs repoName t s).
Proof. reflexivity. Qed.

Lemma exited_run (http_get : Jenkins) (bs : list string) (repoName : string)
    (sched : list tid) (s : PState) :
  exited s = true -> prober_run http_get bs repoName sched s = s.
Proof.
  intros Hex. induction sched as [|t sched IH]; [done|].
  rewrite prober_run_cons. unfold prober_step. rewrite Hex. exact IH.
Qed.

(** A goroutine whose request fails is at its start in every state the
    process has not left. *)
Lemma failing_goroutine_at_start (http_get : Jenkins) (bs : list string)
    (repoName : string) (i : nat) (b : string) :
  bs !! i = Some b ->
  http_get (jenkins_text_url repoName (QueryEscape (QueryEscape b))) = HttpErr ->
  forall (sched : list tid) (s : PState),
    gos s !! i = Some GStart ->
    exited (prober_run http_get bs repoName sched s) = false ->
    gos (prober_run http_get bs repoName sched s) !! i = Some GStart.
Proof.
  intros Hb Herr. induction sched as [|t sched IH]; intros s Hg Hex; [done|].
  rewrite prober_run_cons in *.
  destruct (exited (prober_step http_get bs repoName t s)) eqn:Hex1.
  { rewrite (exited_run _ _ _ _ _ Hex1) in Hex. congruence. }
  apply IH; [|done]. clear IH Hex. revert Hex1. unfold prober_step.
  destruct (exited s); [done|].
  destruct t as [|j]; [by destruct (mainpc s)|].
  destruct (decide (j = i)) as [->|Hne].
  - rewrite Hg, Hb, Herr. done.
  - destruct (gos s !! j) as [[]|]; try done; cbn;
      try (intros _; by rewrite list_lookup_insert_ne).
    + destruct (bs !! j) as [bj|]; [|done].
      destruct (http_get (jenkins_text_url repoName (QueryEscape (QueryEscape bj))));
        cbn; [done|].
      intros _. by rewrite list_lookup_insert_ne.
    + destruct (mainpc s); try done. cbn. intros _. by rewrite list_lookup_insert_ne.
Qed.

Lemma prober_error_not_returned (http_get : Jenkins) (bs : list string)
    (repoName : string) (i : nat) (b : string) (sched : list tid) (res : list CiResult) :
  bs !! i = Some b ->
  http_get (jenkins_text_url repoName (QueryEscape (QueryEscape b))) = HttpErr ->
  getJenkinsBuildStatusBadge http_get bs repoName sched <> Returned res.
Proof.
  intros Hb Herr Hret.
  destruct (prober_returned_permutation _ _ _ _ _ Hret) as [Hperm Hres].
  assert (Hi : i ∈ map BranchesIndex res).
  { rewrite Hperm. apply elem_of_seq. apply lookup_lt_Some in Hb. lia. }
  apply list_elem_of_fmap in Hi as (r & -> & Hr).
  rewrite Hres in Hr. unfold results_of in Hr.
  apply list_elem_of_omap in Hr as (j & _ & Hj).
  destruct (branch_result_index _ _ _ _ _ Hj) as (Hidx & _).
  rewrite Hidx in Hb. unfold branch_result in Hj. by rewrite Hb, Herr in Hj.
Qed.

(** X6: When the request of a branch fails, the prober does not return under
    any schedule, and the turn of that goroutine, whenever it comes, ends
    the process. *)
Theorem prober_transport_error (http_get : Jenkins) (bs : list string)
    (repoName : string) (i : nat) (b : string) :
  bs !! i = Some b ->
  http_get (jenkins_text_url repoName (QueryEscape (QueryEscape b))) = HttpErr ->
  (forall sched res,
     getJenkinsBuildStatusBadge http_get bs repoName sched <> Returned res) /\
  (forall sched,
     getJenkinsBuildStatusBadge http_get bs repoName (sched ++ [Go i]) = Exited).
Proof.
  intros Hb Herr. split; [intros sched res; by eapply prober_error_not_returned|].
  intros sched. unfold getJenkinsBuildStatusBadge. rewrite prober_run_app.
  set (s := prober_run http_get bs repoName sched (prober_init bs)).
  destruct (exited s) eqn:Hex.
  - rewrite (exited_run _ _ _ _ _ Hex). unfold prober_outcome. by rewrite Hex.
  - assert (Hg : gos s !! i = Some GStart).
    { apply (failing_goroutine_at_start http_get bs repoName i b Hb Herr); [|done].
      cbn. apply lookup_replicate_2. by eapply lookup_lt_Some. }
    cbn [prober_run fold_left]. unfold prober_step. rewrite Hex, Hg, Hb, Herr.
    reflexivity.
Qed.

(** ** One request per branch *)

Lemma prober_init_asked (bs : list string) (repoName : string) :
  prober_asked bs repoName (prober_init bs).
Proof.
  exists []. split; [constructor|]. split; [done|]. intros _ i. split.
  - intros Hi. by apply elem_of_nil in Hi.
  - intros (g & Hg & Hne). cbn in Hg. apply lookup_replicate in Hg as [-> _]. done.
Qed.

(** A goroutine that has left its start and moves on changes nothing of
    who has left the start. *)
Lemma moved_on (gs : list gpc) (i : nat) (g g' : gpc) (order : list nat) :
  gs !! i = Some g -> g <> GStart -> g' <> GStart ->
  (forall j, j ∈ order <-> exists g, gs !! j = Some g /\ g <> GStart) ->
  forall j, j ∈ order <-> exists g, <[i := g']> gs !! j = Some g /\ g <> GStart.
Proof.
  intros Hg Hne Hne' Hiff j. rewrite Hiff.
  assert (Hi : (i < length gs)%nat) by by eapply lookup_lt_Some.
  destruct (decide (i = j)) as [->|Hij].
  - rewrite list_lookup_insert_eq by done. split; intros _; by eexists.
  - by rewrite list_lookup_insert_ne.
Qed.

Lemma prober_step_asked (http_get : Jenkins) (bs : list string) (repoName : string)
    (t : tid) (s : PState) :
  prober_asked bs repoName s ->
  prober_asked bs repoName (prober_step http_get bs repoName t s).
Proof.
  intros Hasked. pose proof Hasked as (order & Hnd & Hreq & Hiff).
  unfold prober_step. destruct (exited s) eqn:Hex; [done|].
  specialize (Hiff eq_refl).
  destruct t as [|i].
  - destruct (mainpc s); try exact Hasked. by exists order.
  - destruct (gos s !! i) as [g|] eqn:Hg; [|done].
    assert (Hi : (i < length (gos s))%nat) by by eapply lookup_lt_Some.
    destruct g as [|cires| | |].
    + destruct (bs !! i) as [b|] eqn:Hb; [|done].
      assert (Hfresh : i ∉ order).
      { intros Hin. apply Hiff in Hin as (g & Hg' & Hne). congruence. }
      assert (Hurl : jenkins_text_url repoName (QueryEscape (QueryEscape b))
                     = url_at bs repoName i) by (unfold url_at; by rewrite Hb).
      exists (order ++ [i]). split.
      { apply NoDup_app. split; [done|]. split; [|apply NoDup_singleton].
        intros j Hj Hj'. apply list_elem_of_singleton in Hj'. by subst j. }
      destruct (http_get _) as [|code body]; cbn.
      * split; [by rewrite map_app, Hreq, Hurl|done].
      * split; [by rewrite map_app, Hreq, Hurl|]. intros _ j.
        rewrite elem_of_app, list_elem_of_singleton, Hiff.
        destruct (decide (i = j)) as [->|Hij].
        -- rewrite list_lookup_insert_eq by done. split; [|by right].
           intros _. by eexists.
        -- rewrite list_lookup_insert_ne by done. split; [|by left].
           intros [H|H]; [done|]. by subst j.
    + exists order. cbn. split; [done|]. split; [done|]. intros _.
      by eapply moved_on.
    + exists order. cbn. split; [done|]. split; [done|]. intros _.
      eapply moved_on; [done|done| |done]. by destruct (_ =? _)%nat.
    + destruct (mainpc s); try exact Hasked.
      exists order. cbn. split; [done|]. split; [done|]. intros _.
      by eapply moved_on.
    + done.
Qed.

Lemma prober_run_asked (http_get : Jenkins) (bs : list string) (repoName : string)
    (sched : list tid) (s : PState) :
  prober_asked bs repoName s ->
  prober_asked bs repoName (prober_run http_get bs repoName sched s).
Proof.
  revert s. induction sched as [|t sched IH]; intros s Hs; [done|].
  rewrite prober_run_cons. by apply IH, prober_step_asked.
Qed.

Lemma map_lookup_seq {A B : Type} (f : option A -> B) (l : list A) :
  map (fun i => f (l !! i)) (seq 0 (length l)) = map (fun x => f (Some x)) l.
Proof.
  induction l as [|x l IH]; [done|].
  cbn [length seq map]. f_equal.
  rewrite <- seq_shift, map_map. exact IH.
Qed.

(** A full slice holds the results of all the branches. *)
Lemma full_slice_indices (http_get : Jenkins) (bs : list string) (repoName : string)
    (s : PState) :
  prober_inv http_get bs repoName s ->
  (length bs <= length (returnCiRes s))%nat ->
  Permutation (map BranchesIndex (returnCiRes s)) (seq 0 (length bs)).
Proof.
  intros Hinv Hlen. apply submseteq_length_Permutation.
  - apply NoDup_submseteq; [apply (inv_nodup _ _ _ _ Hinv)|]. intros i Hi.
    apply list_elem_of_fmap in Hi as (r & -> & Hr).
    destruct (inv_buf _ _ _ _ Hinv r Hr) as (Hres & _).
    apply branch_result_index in Hres as (_ & Hlt & _). apply elem_of_seq. lia.
  - by rewrite length_seq, length_map.
Qed.

(** X7: When the prober returns, it has asked Jenkins once for every branch of
    the list and for nothing else: the URLs asked for are those of the
    branches, each one time, in the order in which the goroutines began. *)
Theorem prober_asks_each_branch_once (http_get : Jenkins) (bs : list string)
    (repoName : string) (sched : list tid) (res : list CiResult) :
  getJenkinsBuildStatusBadge http_get bs repoName sched = Returned res ->
  Permutation
    (requests (prober_run http_get bs repoName sched (prober_init bs)))
    (map (fun b => jenkins_text_url repoName (QueryEscape (QueryEscape b))) bs).
Proof.
  unfold getJenkinsBuildStatusBadge, prober_outcome.
  set (s := prober_run http_get bs repoName sched (prober_init bs)).
  assert (Hinv : prober_inv http_get bs repoName s)
    by apply prober_run_inv, prober_init_inv.
  destruct (prober_run_asked http_get bs repoName sched _
              (prober_init_asked bs repoName)) as (order & Hnd & Hreq & Hiff).
  fold s in Hreq, Hiff.
  destruct (exited s) eqn:Hex; [done|]. specialize (Hiff eq_refl).
  destruct (mainpc s) as [| |res'] eqn:Hpc; try done. intros _.
  assert (Hfull : Permutation (map BranchesIndex (returnCiRes s)) (seq 0 (length bs))).
  { apply (full_slice_indices http_get bs repoName s Hinv).
    apply (inv_main _ _ _ _ Hinv). congruence. }
  assert (Horder : Permutation order (seq 0 (length bs))).
  { apply NoDup_Permutation; [done|apply NoDup_seq|]. intros i.
    rewrite Hiff, elem_of_seq. split.
    - intros (g & Hg & _). apply lookup_lt_Some in Hg.
      rewrite (inv_gos _ _ _ _ Hinv) in Hg. lia.
    - intros [_ Hi]. cbn in Hi.
      destruct (lookup_lt_is_Some_2 (gos s) i) as [g Hg];
        [by rewrite (inv_gos _ _ _ _ Hinv)|].
      exists g. split; [done|].
      assert (Hin : i ∈ map BranchesIndex (returnCiRes s)).
      { rewrite Hfull. apply elem_of_seq. lia. }
      apply list_elem_of_fmap in Hin as (r & -> & Hr).
      destruct (inv_buf _ _ _ _ Hinv r Hr) as (_ & _ & Happ).
      specialize (Happ g Hg). by destruct g. }
  rewrite Hreq, Horder. unfold url_at.
  by rewrite (map_lookup_seq
                (fun o => match o with
                          | Some b => jenkins_text_url repoName (QueryEscape (QueryEscape b))
                          | None => EmptyString
                          end) bs).
Qed.

(** ** The fetcher, run again *)

(** What the inner loop adds to a bucket is the same whatever the map
    holds. *)
Lemma fill_bucket_frame (prefix i : string) (allRepos : list Repository) :
  forall m m' : gmap string (list Repository),
    fill_bucket prefix i allRepos m = Some m' ->
    exists add,
      (forall repo, repo ∈ add -> repo ∈ allRepos /\ Archived repo = false) /\
      forall (m2 : gmap string (list Repository)) (l2 : list Repository),
        m2 !! i = Some l2 ->
        fill_bucket prefix i allRepos m2 = Some (<[i := l2 ++ add]> m2).
Proof.
  induction allRepos as [|repo rest IH]; intros m m' Hrun.
  - exists []. split; [intros repo Hrepo; by apply elem_of_nil in Hrepo|].
    intros m2 l2 Hl2. cbn. by rewrite app_nil_r, insert_id.
  - cbn [fill_bucket] in Hrun |- *.
    destruct (Archived repo) eqn:Harch; cbn [negb] in Hrun |- *.
    { destruct (IH _ _ Hrun) as (add & Hadd & Hfill). exists add. split; [|done].
      intros repo' Hrepo'. destruct (Hadd _ Hrepo'). split; [|done].
      by apply list_elem_of_further. }
    destruct (regexp_Compile (bucket_pattern prefix i)) as [r|]; [|done].
    destruct (MatchString r (Name repo)).
    + destruct (IH _ _ Hrun) as (add & Hadd & Hfill). exists (repo :: add). split.
      * intros repo' Hrepo'. apply elem_of_cons in Hrepo' as [->|Hrepo'].
        -- split; [apply list_elem_of_here|done].
        -- destruct (Hadd _ Hrepo'). split; [|done]. by apply list_elem_of_further.
      * intros m2 l2 Hl2. unfold bucket. rewrite Hl2. cbn [default].
        rewrite (Hfill _ (l2 ++ [repo])) by apply lookup_insert_eq.
        by rewrite insert_insert_eq, <- (assoc_L (++)).
    + destruct (IH _ _ Hrun) as (add & Hadd & Hfill). exists add. split; [|done].
      intros repo' Hrepo'. destruct (Hadd _ Hrepo'). split; [|done].
      by apply list_elem_of_further.
Qed.

(** The buckets the outer loop leaves under the keys are the same whatever
    the map held, and are drawn from the repositories listed that are not
    archived; the other keys keep what they had. *)
Lemma fill_buckets_frame (prefix : string) (allRepos : list Repository)
    (keys : list string) :
  forall m m' : gmap string (list Repository),
    fill_buckets prefix keys allRepos m = Some m' ->
    (forall p repo, p ∈ keys -> repo ∈ bucket m' p ->
       repo ∈ allRepos /\ Archived repo = false) /\
    forall m2 : gmap string (list Repository),
    exists m2',
      fill_buckets prefix keys allRepos m2 = Some m2' /\
      (forall p, p ∈ keys -> m2' !! p = m' !! p) /\
      (forall q, q ∉ keys -> m2' !! q = m2 !! q).
Proof.
  induction keys as [|i keys IH]; intros m m' Hrun.
  - split; [intros p repo Hp; by apply elem_of_nil in Hp|].
    intros m2. exists m2. split; [done|]. split; [|done].
    intros p Hp. by apply elem_of_nil in Hp.
  - cbn [fill_buckets] in Hrun.
    destruct (fill_bucket prefix i allRepos (<[i := []]> m)) as [m1|] eqn:Hm1; [|done].
    destruct (fill_bucket_frame _ _ _ _ _ Hm1) as (add & Hadd & Hfill).
    rewrite (Hfill _ []) in Hm1 by apply lookup_insert_eq.
    injection Hm1 as <-. cbn [app] in Hrun.
    destruct (IH _ _ Hrun) as (Hfrom & Hframe).
    assert (Hi : i ∉ keys -> m' !! i = Some add).
    { intros Hout. destruct (Hframe (<[i:=add]> (<[i:=[]]> m))) as (m1' & Hm1' & _ & Hoff).
      rewrite Hrun in Hm1'. injection Hm1' as <-.
      by rewrite (Hoff _ Hout), lookup_insert_eq. }
    split.
    + intros p repo Hp Hrepo.
      destruct (decide (p ∈ keys)) as [Hk|Hk]; [by eapply Hfrom|].
      apply elem_of_cons in Hp as [->|Hp]; [|done].
      unfold bucket in Hrepo. rewrite (Hi Hk) in Hrepo. by apply Hadd.
    + intros m2. cbn [fill_buckets].
      rewrite (Hfill _ []) by apply lookup_insert_eq. cbn [app].
      destruct (Hframe (<[i:=add]> (<[i:=[]]> m2))) as (m2' & Hm2' & Hon & Hoff).
      exists m2'. split; [done|]. split.
      * intros p Hp. destruct (decide (p ∈ keys)) as [Hk|Hk]; [by apply Hon|].
        apply elem_of_cons in Hp as [->|Hp]; [|done].
        by rewrite (Hoff _ Hk), (Hi Hk), lookup_insert_eq.
      * intros q Hq. apply not_elem_of_cons in Hq as [Hqi Hq].
        by rewrite (Hoff _ Hq), !lookup_insert_ne.
Qed.

(** The pagination loop read backwards: from its outcome to the answers of
    the API. *)
Lemma listAllPages_inv (api : GitHubAPI) (org : string) (fuel : nat) :
  forall (page : nat) (pre : list nat) (acc : list Repository),
    match listAllPages fuel api org page pre acc with
    | PagesDone allRepos calls =>
        exists calls' listed,
          calls = pre ++ calls' /\ allRepos = acc ++ listed /\
          length calls' <= fuel /\
          Listing api org (length pre) page calls' listed true
    | PagesFatal calls =>
        exists calls' listed,
          calls = pre ++ calls' /\ length calls' <= fuel /\
          Listing api org (length pre) page calls' listed false
    | PagesOutOfFuel => True
    end.
Proof.
  induction fuel as [|fuel IH]; intros page pre acc; [done|].
  cbn [listAllPages].
  destruct (api (length pre) org page) as [|rs next] eqn:Hapi.
  - exists [page], []. split; [done|]. split; [cbn; lia|]. by apply Listing_error.
  - destruct (Nat.eqb_spec next 0) as [->|Hnext].
    + exists [page], rs. split; [done|]. split; [done|]. split; [cbn; lia|].
      by apply Listing_last.
    + specialize (IH next (pre ++ [page]) (acc ++ rs)).
      destruct (listAllPages fuel api org next (pre ++ [page]) (acc ++ rs))
        as [allRepos calls|calls|]; [| |done].
      * destruct IH as (calls' & listed & -> & -> & Hlen & HL).
        exists (page :: calls'), (rs ++ listed).
        split; [by rewrite <- (assoc_L (++))|]. split; [by rewrite <- (assoc_L (++))|].
        split; [cbn; lia|].
        rewrite length_app in HL. cbn [length] in HL.
        replace (length pre + 1)%nat with (S (length pre)) in HL by lia.
        by eapply Listing_next.
      * destruct IH as (calls' & listed & -> & Hlen & HL).
        exists (page :: calls'), (rs ++ listed).
        split; [by rewrite <- (assoc_L (++))|]. split; [cbn; lia|].
        rewrite length_app in HL. cbn [length] in HL.
        replace (length pre + 1)%nat with (S (length pre)) in HL by lia.
        by eapply Listing_next.
Qed.

(** X10: A run replaces the buckets of the provider keys and forgets what they
    held: started from any other map it ends alike and leaves the same
    buckets under the provider keys, and run again on its own result, with
    the API answering as before, it changes nothing. *)
Theorem fetchRepositorys_refresh (api : GitHubAPI) (opts : OptionsT) (org : string)
    (st st' : State) (calls : list nat) (fuel : nat) :
  fetchRepositorys fuel api opts org st = FetchDone st' calls ->
  (forall m2 : gmap string (list Repository),
   exists m2',
     fetchRepositorys fuel api opts org (set_repos m2 st)
     = FetchDone (set_repos m2' st) calls /\
     (forall p, p ∈ provider st -> m2' !! p = repos st' !! p) /\
     (forall q, q ∉ provider st -> m2' !! q = m2 !! q)) /\
  fetchRepositorys fuel api opts org st' = FetchDone st' calls.
Proof.
  unfold fetchRepositorys.
  destruct (listAllPages fuel api org 0 [] []) as [allRepos calls0| |]; try done.
  destruct (fill_buckets _ _ _ (repos st)) as [m'|] eqn:Hm'; [|done].
  intros [= <- <-].
  destruct (fill_buckets_frame _ _ _ _ _ Hm') as (_ & Hframe).
  cbn [repos provider set_repos]. split.
  - intros m2. destruct (Hframe m2) as (m2' & -> & Hon & Hoff). by exists m2'.
  - destruct (Hframe m') as (m2' & -> & Hon & Hoff).
    replace m2' with m'; [done|]. apply map_eq. intros k.
    destruct (decide (k ∈ provider st)) as [Hk|Hk]; symmetry; auto.
Qed.

(** X11: A run that ends has listed the pages up to a last one, within its
    fuel; it changes nothing but the bucket map, and every repository it
    leaves in the bucket of a provider key was listed by this run and is
    not archived: what an earlier run had put there and is listed no more
    is gone. *)
Theorem fetchRepositorys_done_listed (api : GitHubAPI) (opts : OptionsT) (org : string)
    (st st' : State) (calls : list nat) (fuel : nat) :
  fetchRepositorys fuel api opts org st = FetchDone st' calls ->
  exists allRepos,
    Listing api org 0 0 calls allRepos true /\ length calls <= fuel /\
    provider st' = provider st /\ branches st' = branches st /\
    markdownCache st' = markdownCache st /\
    (forall p repo, p ∈ provider st -> repo ∈ bucket (repos st') p ->
       repo ∈ allRepos /\ Archived repo = false) /\
    (forall q, q ∉ provider st -> repos st' !! q = repos st !! q).
Proof.
  unfold fetchRepositorys.
  pose proof (listAllPages_inv api org fuel 0 [] []) as Hinv.
  destruct (listAllPages fuel api org 0 [] []) as [allRepos calls0| |]; try done.
  destruct Hinv as (calls' & listed & -> & -> & Hlen & HL). cbn [app length] in *.
  destruct (fill_buckets _ _ _ (repos st)) as [m'|] eqn:Hm'; [|done].
  intros [= <- <-]. exists listed.
  destruct (fill_buckets_frame _ _ _ _ _ Hm') as (Hfrom & Hframe).
  cbn [repos provider branches markdownCache set_repos].
  repeat split; try done.
  - by eapply Hfrom.
  - by eapply Hfrom.
  - intros q Hq. destruct (Hframe (repos st)) as (m2' & Hm2' & _ & Hoff).
    rewrite Hm' in Hm2'. injection Hm2' as <-. by apply Hoff.
Qed.

(** X12: The fatal exit is taken only when a call of the listing failed: the
    calls made are those of a listing that ends with an error, the failed
    call last, and the state is the one the run began with. *)
Theorem fetchRepositorys_fatal_only_on_error (api : GitHubAPI) (opts : OptionsT)
    (org : string) (st st' : State) (calls : list nat) (fuel : nat) :
  fetchRepositorys fuel api opts org st = FetchFatal st' calls ->
  st' = st /\
  api (length calls - 1)%nat org (List.last calls 0%nat) = ListErr /\
  exists listed, Listing api org 0 0 calls listed false.
Proof.
  unfold fetchRepositorys.
  pose proof (listAllPages_inv api org fuel 0 [] []) as Hinv.
  destruct (listAllPages fuel api org 0 [] []) as [allRepos calls0|calls0|]; try done.
  - by destruct (fill_buckets _ _ _ _).
  - destruct Hinv as (calls' & listed & -> & Hlen & HL). cbn [app length] in *.
    intros [= <- <-]. split; [done|]. split; [|by exists listed].
    apply (Listing_error_last _ _ _ _ _ _ HL).
Qed.

(** X13: When every answer of the API names a next page, the pagination loop
    has no end: the run neither stores buckets nor exits, whatever the
    number of calls it is given. *)
Theorem fetchRepositorys_endless (api : GitHubAPI) (opts : OptionsT) (org : string)
    (st : State) :
  (forall n page, exists rs next, api n org page = ListOk rs next /\ next <> 0%nat) ->
  forall fuel, fetchRepositorys fuel api opts org st = FetchOutOfFuel.
Proof.
  intros Hapi fuel. unfold fetchRepositorys.
  assert (H : forall page pre acc,
             listAllPages fuel api org page pre acc = PagesOutOfFuel).
  { induction fuel as [|fuel IH]; intros page pre acc; [done|].
    cbn [listAllPages].
    destruct (Hapi (length pre) page) as (rs & next & -> & Hnext).
    destruct (Nat.eqb_spec next 0) as [?|_]; [done|]. apply IH. }
  by rewrite H.
Qed.

Lemma fill_bucket_archived (prefix i : string) (allRepos : list Repository)
    (m : gmap string (list Repository)) :
  (forall repo, repo ∈ allRepos -> Archived repo = true) ->
  fill_bucket prefix i allRepos m = Some m.
Proof.
  induction allRepos as [|repo rest IH]; intros Harch; [done|].
  cbn [fill_bucket]. rewrite (Harch repo) by apply list_elem_of_here.
  cbn [negb]. apply IH. intros repo' Hrepo'. by apply Harch, list_elem_of_further.
Qed.

(** X14: When the listing holds archived repositories only (or none at all),
    the run ends with the empty bucket under every provider key, and it
    compiles no pattern: this holds for every prefix and every key, a
    pattern or not. *)
Theorem fetchRepositorys_all_archived (api : GitHubAPI) (opts : OptionsT) (org : string)
    (st : State) (calls : list nat) (allRepos : list Repository) (fuel : nat) :
  Listing api org 0 0 calls allRepos true ->
  (forall repo, repo ∈ allRepos -> Archived repo = true) ->
  length calls <= fuel ->
  exists st',
    fetchRepositorys fuel api opts org st = FetchDone st' calls /\
    (forall p, p ∈ provider st -> repos st' !! p = Some []) /\
    (forall q, q ∉ provider st -> repos st' !! q = repos st !! q).
Proof.
  intros HL Harch Hfuel. unfold fetchRepositorys.
  rewrite (listAllPages_Listing _ _ _ _ _ _ _ HL fuel [] [] eq_refl).
  destruct (Nat.leb_spec (length calls) fuel) as [_|?]; [|lia]. cbn [app].
  assert (H : forall keys (m : gmap string (list Repository)),
             exists m', fill_buckets (GitHubRepoPrefix opts) keys allRepos m = Some m' /\
               (forall p, p ∈ keys -> m' !! p = Some []) /\
               (forall q, q ∉ keys -> m' !! q = m !! q)).
  { induction keys as [|i keys IH]; intros m.
    - exists m. split; [done|]. split; [|done]. intros p Hp. by apply elem_of_nil in Hp.
    - cbn [fill_buckets]. rewrite fill_bucket_archived by done.
      destruct (IH (<[i := []]> m)) as (m' & Hm' & Hon & Hoff).
      exists m'. split; [done|]. split.
      + intros p Hp. destruct (decide (p ∈ keys)) as [Hk|Hk]; [by apply Hon|].
        apply elem_of_cons in Hp as [->|Hp]; [|done].
        by rewrite (Hoff _ Hk), lookup_insert_eq.
      + intros q Hq. apply not_elem_of_cons in Hq as [Hqi Hq].
        by rewrite (Hoff _ Hq), lookup_insert_ne. }
  destruct (H (provider st) (repos st)) as (m' & -> & Hon & Hoff).
  by exists (set_repos m' st).
Qed.

(** ** A goroutine left at its send *)

(** The turn of one goroutine leaves the others where they are. *)
Lemma step_gos_other (http_get : Jenkins) (bs : list string) (repoName : string)
    (t : tid) (s : PState) (i : nat) :
  t <> Go i ->
  gos (prober_step http_get bs repoName t s) !! i = gos s !! i.
Proof.
  intros Ht. unfold prober_step. destruct (exited s); [done|].
  destruct t as [|j]; [by destruct (mainpc s)|].
  assert (Hne : j <> i) by congruence.
  destruct (gos s !! j) as [[]|]; try done; cbn; try by rewrite list_lookup_insert_ne.
  - destruct (bs !! j) as [bj|]; [|done].
    destruct (http_get (jenkins_text_url repoName (QueryEscape (QueryEscape bj))));
      cbn; [done|]. by rewrite list_lookup_insert_ne.
  - destruct (mainpc s); try done. cbn. by rewrite list_lookup_insert_ne.
Qed.

Lemma run_gos_other (http_get : Jenkins) (bs : list string) (repoName : string)
    (sched : list tid) (i : nat) :
  Go i ∉ sched ->
  forall s : PState,
    gos (prober_run http_get bs repoName sched s) !! i = gos s !! i.
Proof.
  induction sched as [|t sched IH]; intros Hi s; [done|].
  apply not_elem_of_cons in Hi as [Ht Hi].
  rewrite prober_run_cons, IH by done. by apply step_gos_other.
Qed.

(** Once the caller has received, a goroutine at its send stays there. *)
Lemma sending_stays (http_get : Jenkins) (bs : list string) (repoName : string)
    (i : nat) (sched : list tid) :
  forall s : PState,
    gos s !! i = Some GSending ->
    mainpc s <> MWaiting ->
    gos (prober_run http_get bs repoName sched s) !! i = Some GSending /\
    mainpc (prober_run http_get bs repoName sched s) <> MWaiting.
Proof.
  induction sched as [|t sched IH]; intros s Hg Hpc; [done|].
  rewrite prober_run_cons. apply IH.
  - assert (Ht : t = Go i \/ t <> Go i).
    { destruct t as [|j]; [by right|].
      destruct (decide (j = i)) as [->|Hne]; [by left|right; congruence]. }
    destruct Ht as [->|Ht]; [|by rewrite step_gos_other].
    unfold prober_step. destruct (exited s); [done|]. rewrite Hg.
    by destruct (mainpc s).
  - unfold prober_step. destruct (exited s); [done|].
    destruct t as [|j]; [destruct (mainpc s) eqn:E; cbn; congruence|].
    destruct (gos s !! j) as [[]|]; try done.
    + destruct (bs !! j) as [bj|]; [|done].
      by destruct (http_get (jenkins_text_url repoName (QueryEscape (QueryEscape bj)))).
    + destruct (mainpc s) eqn:E; cbn; congruence.
Qed.

(** The race of two goroutines for the last place of the slice. *)
Lemma race_of_two (http_get : Jenkins) (bs : list string) (repoName : string)
    (r0 r1 : CiResult) (s : PState) :
  exited s = false ->
  mainpc s = MWaiting ->
  gos s !! 0%nat = Some GStart ->
  gos s !! 1%nat = Some GStart ->
  length (returnCiRes s) + 2 = length bs ->
  branch_result http_get bs repoName 0 = Some r0 ->
  branch_result http_get bs repoName 1 = Some r1 ->
  let s' := prober_run http_get bs repoName
              [Go 0; Go 0; Go 1; Go 1; Go 0; Go 1; Go 0; Main] s in
  exited s' = false /\
  mainpc s' = MReturned (returnCiRes s ++ [r0; r1]) /\
  gos s' !! 1%nat = Some GSending.
Proof.
  intros Hex Hpc Hg0 Hg1 Hlen Hr0 Hr1.
  assert (H0 : (0 < length (gos s))%nat) by by eapply lookup_lt_Some.
  assert (H1 : (1 < length (gos s))%nat) by by eapply lookup_lt_Some.
  unfold branch_result in Hr0, Hr1.
  destruct (bs !! 0%nat) as [b0|] eqn:Hb0; [|done].
  destruct (bs !! 1%nat) as [b1|] eqn:Hb1; [|done].
  destruct (http_get (jenkins_text_url repoName (QueryEscape (QueryEscape b0))))
    as [|code0 body0] eqn:Hget0; [done|].
  destruct (http_get (jenkins_text_url repoName (QueryEscape (QueryEscape b1))))
    as [|code1 body1] eqn:Hget1; [done|].
  injection Hr0 as Hr0. injection Hr1 as Hr1.
  assert (Hfull : (length ((returnCiRes s ++
             [{| BranchesIndex := 0;
                 BranchHtmlDoubleEncoded := QueryEscape (QueryEscape b0);
                 Build := classify code0 body0 |}]) ++
             [{| BranchesIndex := 1;
                 BranchHtmlDoubleEncoded := QueryEscape (QueryEscape b1);
                 Build := classify code1 body1 |}]) =? length bs)%nat = true).
  { apply Nat.eqb_eq. rewrite !length_app. cbn. lia. }
  intros s'.
  assert (Hs : exists G Q,
            s' = {| gos := G;
                    returnCiRes := returnCiRes s ++ [r0; r1];
                    mainpc := MReturned (returnCiRes s ++ [r0; r1]);
                    exited := false; requests := Q |} /\
            G !! 1%nat = Some GSending).
  { subst s' r0 r1. unfold prober_run. cbn [fold_left].
    unfold prober_step at 8. rewrite Hex, Hg0, Hb0, Hget0.
    unfold prober_step at 7. cbn [exited gos returnCiRes mainpc requests].
    rewrite list_lookup_insert_eq by done.
    unfold prober_step at 6. cbn [exited gos returnCiRes mainpc requests].
    rewrite list_insert_insert_eq.
    rewrite list_lookup_insert_ne, Hg1, Hb1, Hget1 by done.
    unfold prober_step at 5. cbn [exited gos returnCiRes mainpc requests].
    rewrite list_lookup_insert_eq by (by rewrite length_insert).
    unfold prober_step at 4. cbn [exited gos returnCiRes mainpc requests].
    rewrite list_insert_insert_eq.
    rewrite list_lookup_insert_ne, list_lookup_insert_eq by done.
    rewrite Hfull.
    unfold prober_step at 3. cbn [exited gos returnCiRes mainpc requests].
    rewrite list_lookup_insert_ne, list_lookup_insert_eq
      by (done || by rewrite length_insert).
    rewrite Hfull.
    unfold prober_step at 2. cbn [exited gos returnCiRes mainpc requests].
    rewrite list_lookup_insert_ne, list_lookup_insert_eq
      by (done || by rewrite !length_insert).
    rewrite Hpc.
    unfold prober_step at 1. cbn [exited gos returnCiRes mainpc requests].
    rewrite <- (assoc_L (++)). cbn [app].
    eexists _, _. split; [reflexivity|].
    rewrite list_lookup_insert_ne, list_lookup_insert_eq
      by (done || by rewrite !length_insert).
    done. }
  destruct Hs as (G & Q & -> & HG). by cbn.
Qed.

Lemma results_of_length (http_get : Jenkins) (bs : list string) (repoName : string)
    (order : list nat) :
  (forall i, i ∈ order -> is_Some (branch_result http_get bs repoName i)) ->
  length (results_of http_get bs repoName order) = length order.
Proof.
  induction order as [|i order IH]; intros Hall; [done|].
  destruct (Hall i) as [r Hr]; [apply list_elem_of_here|].
  rewrite (results_of_cons _ _ _ _ _ _ Hr). cbn [length]. f_equal.
  apply IH. intros j Hj. by apply Hall, list_elem_of_further.
Qed.

Lemma turns_of_others (i : nat) (order : list nat) :
  i ∉ order -> Go i ∉ flat_map (fun j => [Go j; Go j; Go j; Go j]) order.
Proof.
  intros Hi Hin. apply list_elem_of_In, in_flat_map in Hin as (j & Hj & Hin).
  apply list_elem_of_In in Hj.
  assert (i = j); [|by subst].
  cbn in Hin. destruct Hin as [H|[H|[H|[H|[]]]]]; congruence.
Qed.

(** X8: With two branches or more and no transport error, there is a schedule
    after which the caller has returned the results while the goroutine of
    the second branch is at its send on [done], which nobody receives any
    more: whatever turns follow, it stays there. *)
Theorem prober_race_leaves_goroutine (http_get : Jenkins) (bs : list string)
    (repoName : string) :
  2 <= length bs ->
  transport_ok http_get bs repoName ->
  exists res,
    getJenkinsBuildStatusBadge http_get bs repoName (race bs) = Returned res /\
    forall sched,
      getJenkinsBuildStatusBadge http_get bs repoName (race bs ++ sched) = Returned res /\
      gos (prober_run http_get bs repoName (race bs ++ sched) (prober_init bs)) !! 1%nat
      = Some GSending.
Proof.
  intros Hlen Hok.
  set (order := seq 2 (length bs - 2)).
  assert (Hin : forall i, i ∈ order -> (2 <= i < length bs)%nat).
  { intros i Hi. apply elem_of_seq in Hi. lia. }
  assert (Hall : forall i, i ∈ order -> is_Some (branch_result http_get bs repoName i)).
  { intros i Hi. apply Hok. apply Hin in Hi. lia. }
  destruct (goroutines_run http_get bs repoName order (prober_init bs))
    as (Hex1 & Hbuf1 & Hpc1).
  { apply NoDup_seq. }
  { done. }
  { done. }
  { intros i Hi. split; [|by apply Hall].
    cbn. apply lookup_replicate_2. apply Hin in Hi. lia. }
  { cbn [prober_init returnCiRes length]. unfold order. rewrite length_seq. lia. }
  set (s1 := prober_run http_get bs repoName
               (flat_map (fun i => [Go i; Go i; Go i; Go i]) order) (prober_init bs))
    in Hex1, Hbuf1, Hpc1.
  assert (Hwait : mainpc s1 = MWaiting).
  { rewrite Hpc1. destruct order eqn:Horder; [done|].
    destruct (Nat.eqb_spec (length (returnCiRes (prober_init bs)) + length (n :: l))
                (length bs)) as [Heq|_]; [|done].
    rewrite <- Horder in Heq. unfold order in Heq. rewrite length_seq in Heq.
    cbn in Heq. lia. }
  assert (Hg : forall i, (i < 2)%nat -> gos s1 !! i = Some GStart).
  { intros i Hi. unfold s1. rewrite run_gos_other.
    - cbn. apply lookup_replicate_2. lia.
    - apply turns_of_others. intros Hi'. apply Hin in Hi'. lia. }
  destruct (Hok 0%nat) as [r0 Hr0]; [lia|].
  destruct (Hok 1%nat) as [r1 Hr1]; [lia|].
  destruct (race_of_two http_get bs repoName r0 r1 s1 Hex1 Hwait (Hg 0%nat ltac:(lia))
              (Hg 1%nat ltac:(lia))) as (Hex2 & Hpc2 & Hg2); [|done|done|].
  { rewrite Hbuf1. cbn [prober_init returnCiRes app].
    rewrite results_of_length by done. unfold order. rewrite length_seq. lia. }
  set (s2 := prober_run http_get bs repoName
               [Go 0; Go 0; Go 1; Go 1; Go 0; Go 1; Go 0; Main] s1) in Hex2, Hpc2, Hg2.
  assert (Hrace : prober_run http_get bs repoName (race bs) (prober_init bs) = s2).
  { unfold race. by rewrite prober_run_app. }
  assert (Hinv2 : prober_inv http_get bs repoName s2).
  { rewrite <- Hrace. apply prober_run_inv, prober_init_inv. }
  exists (returnCiRes s1 ++ [r0; r1]).
  split.
  - unfold getJenkinsBuildStatusBadge, prober_outcome. by rewrite Hrace, Hex2, Hpc2.
  - intros sched. rewrite prober_run_app, Hrace.
    destruct (sending_stays http_get bs repoName 1 sched s2 Hg2) as [Hg3 _];
      [by rewrite Hpc2|].
    split; [|done].
    unfold getJenkinsBuildStatusBadge, prober_outcome.
    rewrite prober_run_app, Hrace.
    rewrite (run_not_exited http_get bs repoName sched Hok s2 Hinv2 Hex2).
    assert (Hret : forall sched' s, mainpc s = MReturned (returnCiRes s1 ++ [r0; r1]) ->
              mainpc (prober_run http_get bs repoName sched' s)
              = MReturned (returnCiRes s1 ++ [r0; r1])).
    { induction sched' as [|t sched' IH]; intros s Hs; [done|].
      rewrite prober_run_cons. apply IH. unfold prober_step.
      destruct (exited s); [done|].
      destruct t as [|j]; [by rewrite Hs|].
      destruct (gos s !! j) as [[]|]; try done.
      - destruct (bs !! j) as [bj|]; [|done].
        by destruct (http_get (jenkins_text_url repoName (QueryEscape (QueryEscape bj)))).
      - by rewrite Hs. }
    by rewrite (Hret sched s2 Hpc2).
Qed.

(** ** The document without rows, and the document that is not stored *)

(** X16: when the bucket of every provider key is empty (as before the
    first listing, or when nothing listed matches), the document is stored
    under every schedule, whatever Jenkins would answer, also when it is
    out of reach, and whatever the branch list, also the empty one: it is
    the heading and, for every provider key, the four header lines of its
    section. *)
Theorem markdownContent_empty_buckets (http_get : Jenkins) (scheds : nat -> list tid)
    (st : State) :
  (forall p, p ∈ provider st -> bucket (repos st) p = []) ->
  markdownContent http_get scheds st
  = Returned (set_markdownCache
                (topic +:+ concat_strings (map section_head (provider st))) st).
Proof.
  intros Hempty. unfold markdownContent.
  rewrite render_sections_total.
  - do 3 f_equal. induction (provider st) as [|p keys IH]; [done|].
    cbn [map concat_strings]. rewrite IH by (intros q Hq; by apply Hempty, list_elem_of_further).
    f_equal. unfold section, table_rows.
    rewrite Hempty by apply list_elem_of_here. cbn [map concat_strings].
    by rewrite string_app_nil_r.
  - intros k p repo Hp Hrepo. rewrite (Hempty p Hp) in Hrepo.
    by apply elem_of_nil in Hrepo.
Qed.

(** X17: When the request for one branch of one repository of a provider's
    bucket fails, no run of [markdownContent] stores a document, under any
    schedules: the cache keeps what it held. *)
Theorem markdownContent_transport_error (http_get : Jenkins) (st : State)
    (p : string) (repo : Repository) (i : nat) (b : string) :
  p ∈ provider st ->
  repo ∈ bucket (repos st) p ->
  branches st !! i = Some b ->
  http_get (jenkins_text_url (Name repo) (QueryEscape (QueryEscape b))) = HttpErr ->
  forall scheds st', markdownContent http_get scheds st <> Returned st'.
Proof.
  intros Hp Hrepo Hb Herr scheds st'. unfold markdownContent.
  destruct (render_sections _ _ _ _ _ _ _) as [[md k]| |] eqn:Hsec; try done.
  destruct (render_sections_probed _ _ _ _ _ _ _ _ _ Hsec p repo Hp Hrepo)
    as (sched & res & Hres).
  by destruct (prober_error_not_returned _ _ _ _ _ sched res Hb Herr).
Qed.

(** ** The provider keys of [main] *)

Lemma main_provider_literal (p : string) : p ∈ main_provider -> literal p = true.
Proof.
  intros Hp. apply list_elem_of_In in Hp. cbn in Hp.
  destruct Hp as [<-|[<-|[<-|[<-|[<-|[]]]]]]; reflexivity.
Qed.

(** X15: With the provider keys of [main] and a literal prefix, no repository
    is in the buckets of two keys: no name begins with the prefix and two
    of the keys at once. *)
Theorem main_buckets_disjoint (api : GitHubAPI) (opts : OptionsT) (org : string)
    (st : State) (calls : list nat) (allRepos : list Repository) (fuel : nat) :
  Listing api org 0 0 calls allRepos true ->
  literal (GitHubRepoPrefix opts) = true ->
  provider st = main_provider ->
  length calls <= fuel ->
  exists st',
    fetchRepositorys fuel api opts org st = FetchDone st' calls /\
    forall p q repo, p ∈ main_provider -> q ∈ main_provider ->
      repo ∈ bucket (repos st') p -> repo ∈ bucket (repos st') q -> p = q.
Proof.
  intros HL Hprefix Hkeys Hfuel.
  destruct (fetchRepositorys_done api opts org st calls allRepos fuel HL)
    as (m' & Hrun & Hin & _); [|done|].
  { intros p Hp. rewrite Hkeys in Hp.
    rewrite compiled_literal by auto using main_provider_literal. by eexists. }
  exists (set_repos m' st). split; [done|].
  assert (Hname : forall p repo, p ∈ main_provider -> repo ∈ bucket m' p ->
            exists rest, Name repo = GitHubRepoPrefix opts +:+ p +:+ rest).
  { intros p repo Hp. unfold bucket. rewrite Hin by (by rewrite Hkeys).
    rewrite compiled_literal by auto using main_provider_literal.
    cbn [fmap option_fmap option_map]. unfold default, id, matching.
    rewrite list_elem_of_In, filter_In, andb_true_iff.
    intros (_ & _ & Hm).
    apply bucket_pattern_matches in Hm as (rest & Hrest & _);
      auto using main_provider_literal. by exists rest. }
  intros p q repo Hp Hq Hrp Hrq. cbn [repos set_repos] in Hrp, Hrq.
  destruct (Hname p repo Hp Hrp) as (rest & Hn).
  destruct (Hname q repo Hq Hrq) as (rest' & Hn').
  rewrite Hn in Hn'. apply (inj (String.app _)) in Hn'.
  apply list_elem_of_In in Hp, Hq. cbn in Hp, Hq.
  destruct Hp as [<-|[<-|[<-|[<-|[<-|[]]]]]];
    destruct Hq as [<-|[<-|[<-|[<-|[<-|[]]]]]];
    try reflexivity; cbv in Hn'; congruence.
Qed.

(** ** The further properties on the sample data *)

(** A branch called master is asked for under its own name. *)
Lemma double_escape_unreserved_witness :
  QueryEscape (QueryEscape "master") = "master".
Proof. apply double_escape_unreserved. reflexivity. Defined.

(** The two branches of [main] are asked for under two URLs. *)
Lemma probe_url_injective_witness :
  "support/0.2.x" <> "support/0.1.x" /\
  jenkins_text_url "terraform-aws-cluster" (QueryEscape (QueryEscape "support/0.2.x"))
  <> jenkins_text_url "terraform-aws-cluster" (QueryEscape (QueryEscape "support/0.1.x")).
Proof.
  split; [discriminate|].
  apply (probe_url_injective "terraform-aws-cluster" "support/0.2.x" "support/0.1.x").
  discriminate.
Defined.

(** With Jenkins out of reach, the turn of the first goroutine ends the
    process. *)
Lemma prober_transport_error_witness :
  getJenkinsBuildStatusBadge down_jenkins main_branches "terraform-aws-cluster"
    ([Go 1; Main] ++ [Go 0]) = Exited.
Proof.
  apply (proj2 (prober_transport_error down_jenkins main_branches
                  "terraform-aws-cluster" 0 "support/0.2.x" eq_refl eq_refl)).
Defined.

(** The requests of a run on the sample Jenkins in which support/0.1.x is
    asked for first. *)
Lemma prober_asks_each_branch_once_witness :
  Permutation
    (requests (prober_run sample_jenkins main_branches "terraform-aws-cluster"
                 (sequential [1; 0]%nat) (prober_init main_branches)))
    (map (fun b => jenkins_text_url "terraform-aws-cluster" (QueryEscape (QueryEscape b)))
       main_branches).
Proof.
  apply (prober_asks_each_branch_once sample_jenkins main_branches
           "terraform-aws-cluster" (sequential [1; 0]%nat)
           (results_of sample_jenkins main_branches "terraform-aws-cluster" [1; 0]%nat)).
  vm_compute. reflexivity.
Defined.

(** The race on the two branches of [main]. *)
Lemma prober_race_leaves_goroutine_witness :
  exists res,
    getJenkinsBuildStatusBadge sample_jenkins main_branches "terraform-aws-cluster"
      (race main_branches) = Returned res /\
    forall sched,
      getJenkinsBuildStatusBadge sample_jenkins main_branches "terraform-aws-cluster"
        (race main_branches ++ sched) = Returned res /\
      gos (prober_run sample_jenkins main_branches "terraform-aws-cluster"
             (race main_branches ++ sched) (prober_init main_branches)) !! 1%nat
      = Some GSending.
Proof.
  apply (prober_race_leaves_goroutine sample_jenkins main_branches "terraform-aws-cluster").
  - cbn. lia.
  - apply sample_transport_ok.
Defined.

(** The buckets of the sample listing, told by the names. *)
Lemma fetchRepositorys_buckets_literal_witness :
  exists st',
    fetchRepositorys 2 sample_api (default_Options "dcos-terraform") "dcos-terraform"
      sample_State = FetchDone st' [0; 2]%nat /\
    forall p repo, p ∈ provider sample_State ->
      repo ∈ bucket (repos st') p <->
      repo ∈ sample_repos /\ Archived repo = false /\
      exists rest, Name repo = "terraform-" +:+ p +:+ rest /\ no_newline rest = true.
Proof.
  apply (fetchRepositorys_buckets_literal sample_api (default_Options "dcos-terraform")
           "dcos-terraform" sample_State [0; 2]%nat sample_repos 2).
  - apply sample_listing.
  - reflexivity.
  - intros p Hp. apply list_elem_of_In in Hp. cbn in Hp.
    destruct Hp as [<-|[<-|[]]]; reflexivity.
  - cbn. lia.
Defined.

(** A stale entry under a provider key does not survive the sample run. *)
Lemma fetchRepositorys_refresh_witness :
  (forall m2 : gmap string (list Repository),
   exists m2',
     fetchRepositorys 2 sample_api (default_Options "dcos-terraform") "dcos-terraform"
       (set_repos m2 sample_State)
     = FetchDone (set_repos m2' sample_State) [0; 2]%nat /\
     (forall p, p ∈ provider sample_State -> m2' !! p = repos sample_fetched !! p) /\
     (forall q, q ∉ provider sample_State -> m2' !! q = m2 !! q)) /\
  fetchRepositorys 2 sample_api (default_Options "dcos-terraform") "dcos-terraform"
    sample_fetched = FetchDone sample_fetched [0; 2]%nat.
Proof.
  apply (fetchRepositorys_refresh sample_api (default_Options "dcos-terraform")
           "dcos-terraform" sample_State sample_fetched [0; 2]%nat 2).
  vm_compute. reflexivity.
Defined.

(** What the sample run left in the buckets was listed and is not
    archived. *)
Lemma fetchRepositorys_done_listed_witness :
  exists allRepos,
    Listing sample_api "dcos-terraform" 0 0 [0; 2]%nat allRepos true /\
    length [0; 2]%nat <= 2 /\
    provider sample_fetched = provider sample_State /\
    branches sample_fetched = branches sample_State /\
    markdownCache sample_fetched = markdownCache sample_State /\
    (forall p repo, p ∈ provider sample_State -> repo ∈ bucket (repos sample_fetched) p ->
       repo ∈ allRepos /\ Archived repo = false) /\
    (forall q, q ∉ provider sample_State ->
       repos sample_fetched !! q = repos sample_State !! q).
Proof.
  apply (fetchRepositorys_done_listed sample_api (default_Options "dcos-terraform")
           "dcos-terraform" sample_State sample_fetched [0; 2]%nat 2).
  vm_compute. reflexivity.
Defined.

(** The fatal exit on the failing API came from the failed second call. *)
Lemma fetchRepositorys_fatal_only_on_error_witness :
  sample_State = sample_State /\
  failing_api (length [0; 2]%nat - 1)%nat "dcos-terraform" (List.last [0; 2]%nat 0%nat)
  = ListErr /\
  exists listed, Listing failing_api "dcos-terraform" 0 0 [0; 2]%nat listed false.
Proof.
  apply (fetchRepositorys_fatal_only_on_error failing_api
           (default_Options "dcos-terraform") "dcos-terraform" sample_State sample_State
           [0; 2]%nat 5).
  vm_compute. reflexivity.
Defined.

(** A thousand calls do not end the listing of the endless API. *)
Lemma fetchRepositorys_endless_witness :
  fetchRepositorys 1000 endless_api (default_Options "dcos-terraform") "dcos-terraform"
    main_State = FetchOutOfFuel.
Proof.
  apply (fetchRepositorys_endless endless_api (default_Options "dcos-terraform")
           "dcos-terraform" main_State).
  intros n page. exists [], (S page). split; [reflexivity|discriminate].
Defined.

(** An organisation with one archived repository, and a prefix that is no
    pattern: the run ends with empty buckets. *)
Lemma fetchRepositorys_all_archived_witness :
  regexp_Compile (bucket_pattern "(" "aws") = None /\
  exists st',
    fetchRepositorys 1 archived_api (unbalanced_Options "dcos-terraform") "dcos-terraform"
      main_State = FetchDone st' [0%nat] /\
    (forall p, p ∈ provider main_State -> repos st' !! p = Some []) /\
    (forall q, q ∉ provider main_State -> repos st' !! q = repos main_State !! q).
Proof.
  split; [vm_compute; reflexivity|].
  apply (fetchRepositorys_all_archived archived_api (unbalanced_Options "dcos-terraform")
           "dcos-terraform" main_State [0%nat]
           [ {| ID := 2; Name := "terraform-aws-old"; OwnerLogin := "dcos-terraform";
                Archived := true |} ] 1).
  - by apply Listing_last.
  - intros repo Hrepo. apply list_elem_of_singleton in Hrepo. by subst repo.
  - cbn. lia.
Defined.

(** The buckets of the sample listing under the provider keys of [main]. *)
Lemma main_buckets_disjoint_witness :
  exists st',
    fetchRepositorys 2 sample_api (default_Options "dcos-terraform") "dcos-terraform"
      main_State = FetchDone st' [0; 2]%nat /\
    forall p q repo, p ∈ main_provider -> q ∈ main_provider ->
      repo ∈ bucket (repos st') p -> repo ∈ bucket (repos st') q -> p = q.
Proof.
  apply (main_buckets_disjoint sample_api (default_Options "dcos-terraform")
           "dcos-terraform" main_State [0; 2]%nat sample_repos 2).
  - apply sample_listing.
  - reflexivity.
  - reflexivity.
  - cbn. lia.
Defined.

(** Before the first listing the document has the five sections of [main]
    and no row, also with Jenkins out of reach. *)
Lemma markdownContent_empty_buckets_witness :
  markdownContent down_jenkins (fun _ => []) main_State
  = Returned (set_markdownCache
                (topic +:+ concat_strings (map section_head main_provider)) main_State).
Proof.
  apply (markdownContent_empty_buckets down_jenkins (fun _ => []) main_State).
  intros p _. unfold bucket. cbn [repos main_State]. by rewrite lookup_empty.
Defined.

(** With Jenkins out of reach, the document of the sample buckets is not
    stored. *)
Lemma markdownContent_transport_error_witness :
  down_jenkins (jenkins_text_url "terraform-aws-cluster"
                  (QueryEscape (QueryEscape "support/0.2.x"))) = HttpErr /\
  forall scheds st', markdownContent down_jenkins scheds sample_fetched <> Returned st'.
Proof.
  split; [reflexivity|].
  apply (markdownContent_transport_error down_jenkins sample_fetched "aws" sample_repo
           0 "support/0.2.x").
  - apply list_elem_of_here.
  - change (bucket (repos sample_fetched) "aws") with [sample_repo].
    apply list_elem_of_here.
  - reflexivity.
  - reflexivity.
Defined.
